(** * generate-model.ts: the generic model generator and the DataModel profile

    A shallow embedding of [src/utils/generate-model.ts] and the properties
    of its two entry points, [generateModel] and [generateDataModel].

    Data model.
    - A JavaScript value is a [value]: [undefined], [null], booleans,
      integer-valued numbers, strings, plain objects, dense arrays, and
      what property access reaches from those: the two prototype objects
      [Object.prototype] and [Array.prototype] and the built-in functions
      they hold.  A plain object is the finite map of its own properties
      (a property may be present and hold [undefined]); its prototype is
      [Object.prototype], so [key in obj] and [obj[key]] also see the
      members it inherits.  The members of the two prototypes are those of
      ECMAScript 2023 with its Annex B.
    - Code runs in strict mode (the file is a module): a function called
      without a receiver has [this] undefined.
    - A call has one of three outcomes: it returns a value, it throws, or
      it leaves what is modelled (a wrapper object, a model whose
      prototype was replaced, the text of a number that is no safe
      integer or of a function).  Callbacks (field transformers, the
      post-process hook) are functions with such an outcome.
    - A field-mapping table is the list of its [Object.entries], in
      iteration order; a target model is a finite map from field names to
      values.

    The helpers that do not depend on the date library alone are embedded
    too: [kebabToCamel] and [getReadTime], and, over what [dayjs]
    computes for a date, [sortByPublishedAt], [sortByDate] and
    [isBetween]. *)

From Stdlib Require Import Ascii.
From stdpp Require Import gmap strings list fin_maps pretty sorting.

#[local] Set Warnings "-register-all".
#[local] Open Scope string_scope.

(** ** Outcomes *)

Inductive outcome (A : Type) : Type :=
  | Returns (a : A)
  | Throws
  | Beyond.

Arguments Returns {A} a.
Arguments Throws {A}.
Arguments Beyond {A}.

#[global] Instance outcome_ret : MRet outcome := @Returns.

#[global] Instance outcome_bind : MBind outcome :=
  λ A B f x,
    match x with
    | Returns a => f a
    | Throws => Throws
    | Beyond => Beyond
    end.

#[global] Instance outcome_fmap : FMap outcome :=
  λ A B f x,
    match x with
    | Returns a => Returns (f a)
    | Throws => Throws
    | Beyond => Beyond
    end.

(** The calls [f 0 x0], [f 1 x1], ... in turn, as [Array.prototype.map]
    makes them; the first one that does not return ends the loop. *)
Fixpoint outcome_imap {A B : Type} (f : nat → A → outcome B) (start : nat)
    (l : list A) : outcome (list B) :=
  match l with
  | [] => Returns []
  | x :: rest =>
      y ← f start x;
      ys ← outcome_imap f (S start) rest;
      Returns (y :: ys)
  end.

(** ** JavaScript values *)

Inductive value : Type :=
  | VUndefined
  | VNull
  | VBool (b : bool)
  | VNum (n : Z)
  | VStr (s : string)
  | VObj (props : gmap string value)
  | VArr (elems : list value)
  | VObjectPrototype
  | VArrayPrototype
  | VFun (name : string).

(** [v === undefined] *)
Definition is_undefined (v : value) : bool :=
  match v with VUndefined => true | _ => false end.

(** ToBoolean: what [if (v)] and [v && ...] test. *)
Definition truthy (v : value) : bool :=
  match v with
  | VUndefined | VNull => false
  | VBool b => b
  | VNum n => negb (n =? 0)%Z
  | VStr s => negb (String.eqb s "")
  | VObj _ | VArr _ | VObjectPrototype | VArrayPrototype | VFun _ => true
  end.

(** [v && typeof v === 'object'].  [typeof null] is ['object'] too, but
    [null] is falsy; [typeof] of a function is ['function']. *)
Definition is_object_like (v : value) : bool :=
  match v with
  | VObj _ | VArr _ | VObjectPrototype | VArrayPrototype => true
  | _ => false
  end.

(** The value is an Object of the language: anything but a primitive. *)
Definition is_object (v : value) : bool :=
  match v with
  | VObj _ | VArr _ | VObjectPrototype | VArrayPrototype | VFun _ => true
  | _ => false
  end.

(** [Array.isArray(v)]; [Array.prototype] is an array of length 0. *)
Definition is_array (v : value) : bool :=
  match v with VArr _ | VArrayPrototype => true | _ => false end.

(** *** Array index keys

    A property key is an array index when it is the canonical decimal
    spelling of an integer below [2^32 - 1]. *)

Definition digit_of (a : Ascii.ascii) : option N :=
  let n := Ascii.N_of_ascii a in
  if ((48 <=? n) && (n <=? 57))%N then Some (n - 48)%N else None.

Fixpoint parse_digits (acc : N) (s : string) : option N :=
  match s with
  | EmptyString => Some acc
  | String a s' =>
      match digit_of a with
      | Some d => parse_digits (10 * acc + d)%N s'
      | None => None
      end
  end.

Definition array_index (key : string) : option N :=
  match key with
  | EmptyString => None
  | String a rest =>
      if Ascii.eqb a "0"%char then
        match rest with EmptyString => Some 0%N | _ => None end
      else
        match parse_digits 0 key with
        | Some n => if (n <? 2 ^ 32 - 1)%N then Some n else None
        | None => None
        end
  end.

(** *** Properties, own and inherited *)

(** The methods of [Object.prototype]; it also holds [constructor] and
    the accessor [__proto__]. *)
Definition object_prototype_methods : list string :=
  [ "__defineGetter__"; "__defineSetter__"; "__lookupGetter__";
    "__lookupSetter__"; "hasOwnProperty"; "isPrototypeOf";
    "propertyIsEnumerable"; "toLocaleString"; "toString"; "valueOf" ].

(** The methods of [Array.prototype]; it also holds [constructor] and
    [length]. *)
Definition array_prototype_methods : list string :=
  [ "at"; "concat"; "copyWithin"; "entries"; "every"; "fill"; "filter";
    "find"; "findIndex"; "findLast"; "findLastIndex"; "flat"; "flatMap";
    "forEach"; "includes"; "indexOf"; "join"; "keys"; "lastIndexOf"; "map";
    "pop"; "push"; "reduce"; "reduceRight"; "reverse"; "shift"; "slice";
    "some"; "sort"; "splice"; "toLocaleString"; "toReversed"; "toSorted";
    "toSpliced"; "toString"; "unshift"; "values"; "with" ].

(** The data properties of [Object.prototype]: built-in functions. *)
Definition object_prototype_member (key : string) : option value :=
  if String.eqb key "constructor" then Some (VFun "Object")
  else if bool_decide (key ∈ object_prototype_methods)
       then Some (VFun ("Object.prototype." +:+ key))
       else None.

(** The properties of [Array.prototype] besides [length]. *)
Definition array_prototype_member (key : string) : option value :=
  if String.eqb key "constructor" then Some (VFun "Array")
  else if bool_decide (key ∈ array_prototype_methods)
       then Some (VFun ("Array.prototype." +:+ key))
       else None.

(** What an object finds on [Object.prototype]: the accessor [__proto__]
    answers with the prototype of the object that is asked. *)
Definition inherited_from_object (prototype : value) (key : string)
    : option value :=
  if String.eqb key "__proto__" then Some prototype
  else object_prototype_member key.

(** What an array finds on [Array.prototype] and, behind it, on
    [Object.prototype]. *)
Definition inherited_from_array (prototype : value) (key : string)
    : option value :=
  match array_prototype_member key with
  | Some member => Some member
  | None => inherited_from_object prototype key
  end.

(** The own properties of a dense array: its elements and [length]. *)
Definition array_own (elems : list value) (key : string) : option value :=
  match array_index key with
  | Some n => elems !! N.to_nat n
  | None =>
      if String.eqb key "length" then Some (VNum (Z.of_nat (length elems)))
      else None
  end.

(** The property [key] of an object-like value, found on the value or
    along its prototype chain; [None] when there is none. *)
Definition property (v : value) (key : string) : option value :=
  match v with
  | VObj props =>
      match props !! key with
      | Some w => Some w
      | None => inherited_from_object VObjectPrototype key
      end
  | VArr elems =>
      match array_own elems key with
      | Some w => Some w
      | None => inherited_from_array VArrayPrototype key
      end
  | VObjectPrototype => inherited_from_object VNull key
  | VArrayPrototype =>
      if String.eqb key "length" then Some (VNum 0)
      else inherited_from_array VObjectPrototype key
  | _ => None
  end.

(** [key in v], for an object-like [v]. *)
Definition has_key (v : value) (key : string) : bool :=
  bool_decide (is_Some (property v key)).

(** [v[key]], for an object-like [v]: [undefined] when there is no such
    property. *)
Definition get (v : value) (key : string) : value :=
  default VUndefined (property v key).

(** ToString, as a template literal applies it.  A number is spelled in
    decimal when it is a safe integer.  A plain object is asked for its
    [toString] and then its [valueOf]: the inherited [toString] answers
    ["[object Object]"]; an own one that is no function is passed over,
    and the inherited [valueOf] gives no primitive, which is a
    [TypeError].  An array is the comma-joined spelling of its elements,
    where [null] and [undefined] are spelled as the empty string. *)
Fixpoint to_string (v : value) : outcome string :=
  match v with
  | VUndefined => Returns "undefined"
  | VNull => Returns "null"
  | VBool b => Returns (if b then "true" else "false")
  | VNum n =>
      if bool_decide (- 2 ^ 53 < n < 2 ^ 53)%Z then Returns (pretty n)
      else Beyond
  | VStr s => Returns s
  | VObj props =>
      match props !! "toString" with
      | None => Returns "[object Object]"
      | Some (VFun _) => Beyond
      | Some _ =>
          match props !! "valueOf" with
          | Some (VFun _) => Beyond
          | _ => Throws
          end
      end
  | VArr elems =>
      let element (x : value) : outcome string :=
        match x with
        | VUndefined | VNull => Returns ""
        | _ => to_string x
        end in
      (fix join (l : list value) : outcome string :=
         match l with
         | [] => Returns ""
         | [x] => element x
         | x :: rest =>
             first ← element x;
             others ← join rest;
             Returns (first +:+ "," +:+ others)
         end) elems
  | VObjectPrototype => Returns "[object Object]"
  | VArrayPrototype => Returns ""
  | VFun _ => Beyond
  end.

(** ** Strings *)

(** [s.includes('.')] *)
Fixpoint includes_dot (s : string) : bool :=
  match s with
  | EmptyString => false
  | String a s' => Ascii.eqb a "."%char || includes_dot s'
  end.

(** [s.split('.')]: never empty; ["a..b"] gives [["a"; ""; "b"]]. *)
Fixpoint split_dot (s : string) : list string :=
  match s with
  | EmptyString => [EmptyString]
  | String a s' =>
      if Ascii.eqb a "."%char then EmptyString :: split_dot s'
      else
        match split_dot s' with
        | part :: parts => String a part :: parts
        | [] => [String a EmptyString]
        end
  end.

(** ** Objects with ordered keys

    The own properties of a plain object whose iteration order matters,
    as [Object.entries] lists them: array-index keys first, in ascending
    order, then the other keys in creation order. *)

Section Entries.
Context {A : Type}.

Fixpoint entries_get (key : string) (entries : list (string * A)) : option A :=
  match entries with
  | [] => None
  | (k, a) :: rest => if String.eqb k key then Some a else entries_get key rest
  end.

Definition entries_replace (key : string) (a : A) (entries : list (string * A))
  : list (string * A) :=
  map (λ e, if String.eqb e.1 key then (e.1, a) else e) entries.

(** A new array-index key goes before the first key that is not an
    array index or is a larger one. *)
Fixpoint entries_insert_index (n : N) (key : string) (a : A)
    (entries : list (string * A)) : list (string * A) :=
  match entries with
  | [] => [(key, a)]
  | e :: rest =>
      match array_index e.1 with
      | Some n' =>
          if (n' <? n)%N then e :: entries_insert_index n key a rest
          else (key, a) :: entries
      | None => (key, a) :: entries
      end
  end.

(** [obj[key] = a], for [a] an array.  Without an own [__proto__], the
    key [__proto__] reaches the setter of [Object.prototype]: it makes
    the array the prototype of [obj] and adds no property. *)
Definition entries_set (key : string) (a : A) (entries : list (string * A))
  : list (string * A) :=
  match entries_get key entries with
  | Some _ => entries_replace key a entries
  | None =>
      if String.eqb key "__proto__" then entries
      else
        match array_index key with
        | Some n => entries_insert_index n key a entries
        | None => entries ++ [(key, a)]
        end
  end.
End Entries.

(** ** The generic mapper: [generateModel] *)

(** The value the table holds for a target field: an array of candidate
    source keys, or anything that fails
    [sourceFields && Array.isArray(sourceFields)] (in particular
    [undefined], which the optional type allows). *)
Inductive source_fields : Type :=
  | Candidates (keys : list string)
  | NotArray.

(** [FieldMapping<T>], as [Object.entries(fieldMapping)]. *)
Abbreviation FieldMapping := (list (string * source_fields)).

(** [Partial<T>]: the model under construction. *)
Abbreviation model := (gmap string value).

(** [(value, sourceItem) => any] *)
Abbreviation transformer := (value → value → outcome value).

(** What the transformer table holds for a field of its own: a function,
    or a value that fails
    [transformer && typeof transformer === 'function']. *)
Inductive transformer_entry : Type :=
  | Callable (f : transformer)
  | NotCallable.

(** [(model, sourceItem, index) => T] *)
Abbreviation post_process :=
  (gmap string value → value → nat → outcome (gmap string value)).

(** [TransformOptions<T>]; [None] is an omitted property. *)
Record TransformOptions : Type := {
  transformers : option (gmap string transformer_entry);
  defaults : option model;
  postProcess : option post_process
}.

(** The default argument [options = {}]. *)
Definition no_options : TransformOptions :=
  {| transformers := None; defaults := None; postProcess := None |}.

(** The inner loop over the path segments, from the current value:
    [None] is [found = false]. *)
Fixpoint traverse (parts : list string) (nestedValue : value) : option value :=
  match parts with
  | [] => Some nestedValue
  | part :: rest =>
      if is_object_like nestedValue && has_key nestedValue part
      then traverse rest (get nestedValue part)
      else None
  end.

(** The loop [for (const key of sourceFields)], with [value] initially
    [undefined]; each [break] returns. *)
Fixpoint resolve_candidates (item : value) (sourceFields : list string) : value :=
  match sourceFields with
  | [] => VUndefined
  | key :: rest =>
      if includes_dot key then
        match traverse (split_dot key) item with
        | Some nestedValue =>
            if is_undefined nestedValue then resolve_candidates item rest
            else nestedValue
        | None => resolve_candidates item rest
        end
      else if is_object_like item && has_key item key then get item key
      else resolve_candidates item rest
  end.

(** The candidate scan followed by "use index as id if not found". *)
Definition resolve_field (item : value) (index : nat) (field : string)
    (sourceFields : list string) : value :=
  let found := resolve_candidates item sourceFields in
  if is_undefined found && String.eqb field "id" then VNum (Z.of_nat index)
  else found.

(** A function of [Object.prototype] called as [f(value, item)], without
    a receiver.  [Object(value)] makes a new object of [undefined] and
    [null], returns an object as it is and wraps a primitive;
    [toString] reads the tag of the missing receiver; [isPrototypeOf]
    answers [false] to a primitive before it looks at the receiver;
    [hasOwnProperty] and [propertyIsEnumerable] first turn their argument
    into a property key, which may run a [toString] of the caller's, and
    then, like all the others at their first step, turn the receiver
    into an object, which throws. *)
Definition call_inherited (name : string) (resolved : value) : outcome value :=
  if String.eqb name "Object" then
    match resolved with
    | VUndefined | VNull => Returns (VObj ∅)
    | _ => if is_object resolved then Returns resolved else Beyond
    end
  else if String.eqb name "Object.prototype.toString" then
    Returns (VStr "[object Undefined]")
  else if String.eqb name "Object.prototype.isPrototypeOf" then
    if is_object resolved then Throws else Returns (VBool false)
  else if String.eqb name "Object.prototype.hasOwnProperty"
          || String.eqb name "Object.prototype.propertyIsEnumerable" then
    match to_string resolved with
    | Beyond => Beyond
    | _ => Throws
    end
  else Throws.

(** "Apply custom transformer if available": [transformers[field]] is an
    entry of the table or, for want of one, a member of
    [Object.prototype]; it is called when it is a function. *)
Definition apply_transformer (table : gmap string transformer_entry)
    (field : string) (resolved item : value) : outcome value :=
  match table !! field with
  | Some (Callable f) => f resolved item
  | Some NotCallable => Returns resolved
  | None =>
      match object_prototype_member field with
      | Some (VFun name) => call_inherited name resolved
      | _ => Returns resolved
      end
  end.

(** [v === null] *)
Definition is_null (v : value) : bool :=
  match v with VNull => true | _ => false end.

(** [model[field] = value].  Without an own [__proto__], the field
    [__proto__] reaches the setter of [Object.prototype]: it ignores a
    primitive and makes an object or [null] the prototype of the model. *)
Definition assign (m : model) (field : string) (final : value) : outcome model :=
  if String.eqb field "__proto__" then
    match m !! field with
    | Some _ => Returns (<[field := final]> m)
    | None =>
        if is_object final || is_null final then Beyond else Returns m
    end
  else Returns (<[field := final]> m).

(** One callback of [Object.entries(fieldMapping).forEach]. *)
Definition process_field (table : gmap string transformer_entry)
    (item : value) (index : nat) (m : model)
    (entry : string * source_fields) : outcome model :=
  match entry.2 with
  | NotArray => Returns m
  | Candidates keys =>
      final ← apply_transformer table entry.1
                 (resolve_field item index entry.1 keys) item;
      if is_undefined final then Returns m else assign m entry.1 final
  end.

(** The loop over the entries of the table, from the model [m]. *)
Fixpoint process_fields (table : gmap string transformer_entry)
    (item : value) (index : nat) (m : model) (fieldMapping : FieldMapping)
    : outcome model :=
  match fieldMapping with
  | [] => Returns m
  | entry :: rest =>
      m' ← process_field table item index m entry;
      process_fields table item index m' rest
  end.

(** The model of one record when the loop over the table is done, before
    any post-processing: it starts as a copy of the defaults. *)
Definition build_model (fieldMapping : FieldMapping) (options : TransformOptions)
    (item : value) (index : nat) : outcome model :=
  process_fields (default ∅ (transformers options)) item index
    (default ∅ (defaults options)) fieldMapping.

(** One callback of [data.map]. *)
Definition generate_item (fieldMapping : FieldMapping) (options : TransformOptions)
    (index : nat) (item : value) : outcome model :=
  result ← build_model fieldMapping options item index;
  match postProcess options with
  | Some hook => hook result item index
  | None => Returns result
  end.

Definition generateModel (data : value) (fieldMapping : FieldMapping)
    (options : TransformOptions) : outcome (list model) :=
  match data with
  | VArr items => outcome_imap (generate_item fieldMapping options) 0 items
  | _ => Returns []
  end.

(** ** The DataModel profile: [generateDataModel] *)

(** [DataModelTransformOptions]: the generic options and the two link
    knobs.  [None] is an omitted property; a knob explicitly set to
    [undefined] behaves as [Some false], respectively [Some ""], because
    only its truthiness is read. *)
Record DataModelTransformOptions : Type := {
  generic : TransformOptions;
  addRefToLink : option bool;
  refParam : option string
}.

(** The default argument [options = {}]. *)
Definition no_data_model_options : DataModelTransformOptions :=
  {| generic := no_options; addRefToLink := None; refParam := None |}.

Definition defaultDataModelMapping : FieldMapping :=
  [ ("id", Candidates ["collectionId"; "guid"; "_id"; "id"]);
    ("title", Candidates ["title"]);
    ("domain", Candidates ["domain"]);
    ("author", Candidates ["author"; "creator"]);
    ("description", Candidates ["description"; "excerpt"; "content"; "summary"]);
    ("cover", Candidates ["cover"; "image"; "thumbnail"]);
    ("link", Candidates ["link"; "url"]);
    ("lastUpdate", Candidates ["lastUpdate"; "pubDate"; "updated"; "date"]);
    ("tags", Candidates ["tags"; "categories"; "keywords"]);
    ("value", Candidates ["value"]) ].

(** [{...defaultOptions, ...options, transformers: {...options.transformers},
    defaults: {...options.defaults}}] *)
Definition mergeOptions (options : DataModelTransformOptions)
    : DataModelTransformOptions :=
  {| generic :=
       {| transformers := Some (default ∅ (transformers (generic options)));
          defaults := Some (default ∅ (defaults (generic options)));
          postProcess := postProcess (generic options) |};
     addRefToLink := Some (default true (addRefToLink options));
     refParam := Some (default "?ref=bookmarksfor.dev" (refParam options)) |}.

(** The condition [model.link && mergedOptions.addRefToLink &&
    mergedOptions.refParam]. *)
Definition decorates (mergedOptions : DataModelTransformOptions) (m : model) : bool :=
  truthy (default VUndefined (m !! "link"))
  && default false (addRefToLink mergedOptions)
  && truthy (VStr (default "" (refParam mergedOptions))).

(** The post-processor "for link modification". *)
Definition linkPostProcess (mergedOptions : DataModelTransformOptions)
    : post_process :=
  λ m _ _,
    if decorates mergedOptions m then
      text ← to_string (default VUndefined (m !! "link"));
      Returns (<["link" := VStr (text +:+ default "" (refParam mergedOptions))]> m)
    else Returns m.

(** One callback of [Object.entries(fieldMapping).forEach] in "add
    user-provided mappings": [if (value && Array.isArray(value))
    mergedMapping[key] = value]. *)
Definition merge_entry (mergedMapping : FieldMapping)
    (entry : string * source_fields) : FieldMapping :=
  match entry.2 with
  | Candidates _ => entries_set entry.1 entry.2 mergedMapping
  | NotArray => mergedMapping
  end.

(** "Merge field mappings": a copy of the default table, then every
    caller entry that holds an array is assigned onto it. *)
Definition mergeMapping (fieldMapping : FieldMapping) : FieldMapping :=
  foldl merge_entry defaultDataModelMapping fieldMapping.

(** The third argument of the call to [generateModel]:
    [{...mergedOptions, postProcess}]. *)
Definition engineOptions (options : DataModelTransformOptions) : TransformOptions :=
  let mergedOptions := mergeOptions options in
  {| transformers := transformers (generic mergedOptions);
     defaults := defaults (generic mergedOptions);
     postProcess := Some (linkPostProcess mergedOptions) |}.

Definition generateDataModel (data : value) (fieldMapping : FieldMapping)
    (options : DataModelTransformOptions) : outcome (list model) :=
  generateModel data (mergeMapping fieldMapping) (engineOptions options).

(** ** The specification's reading of candidate resolution *)

(** What one candidate yields for a record, taken on its own: the value at
    the end of the dotted path, or the value under the direct key;
    [undefined] when there is none. *)
Definition candidate_yield (item : value) (key : string) : value :=
  if includes_dot key then default VUndefined (traverse (split_dot key) item)
  else if is_object_like item && has_key item key then get item key
  else VUndefined.

(** "First defined candidate wins": the yield of the first candidate that
    yields anything but [undefined]. *)
Fixpoint first_defined (item : value) (keys : list string) : value :=
  match keys with
  | [] => VUndefined
  | key :: rest =>
      if is_undefined (candidate_yield item key) then first_defined item rest
      else candidate_yield item key
  end.



(** The function registered for [field] in the caller's table, if the
    table holds one. *)
Definition transformer_for (options : TransformOptions) (field : string)
    : option transformer :=
  match default ∅ (transformers options) !! field with
  | Some (Callable f) => Some f
  | _ => None
  end.

(** The field bears the name of a function of [Object.prototype], which
    [transformers[field]] finds when the table has no entry of its own. *)
Definition inherited_function (field : string) : bool :=
  match object_prototype_member field with
  | Some (VFun _) => true
  | _ => false
  end.

(** No function is found under [transformers[field]], and the
    assignment to [field] is an ordinary one. *)
Definition untransformed (options : TransformOptions) (field : string) : Prop :=
  transformer_for options field = None
  ∧ inherited_function field = false
  ∧ field ≠ "__proto__".

(** What processing the table entry of [field] leaves under [field], from
    what was there before. *)
Definition field_step (options : TransformOptions) (item : value) (index : nat)
    (field : string) (sourceFields : source_fields) (before : option value)
    : outcome (option value) :=
  match sourceFields with
  | NotArray => Returns before
  | Candidates keys =>
      final ← apply_transformer (default ∅ (transformers options)) field
                 (resolve_field item index field keys) item;
      if is_undefined final then Returns before
      else if String.eqb field "__proto__" then
        match before with
        | Some _ => Returns (Some final)
        | None =>
            if is_object final || is_null final then Beyond
            else Returns before
        end
      else Returns (Some final)
  end.

(** The caller's options with [postProcess] set to [hook]. *)
Definition with_postProcess (hook : option post_process)
    (options : DataModelTransformOptions) : DataModelTransformOptions :=
  {| generic :=
       {| transformers := transformers (generic options);
          defaults := defaults (generic options);
          postProcess := hook |};
     addRefToLink := addRefToLink options;
     refParam := refParam options |}.
(** ** Sample records *)

(** [{}] *)
Definition empty_record : value := VObj ∅.

(** The records [[{}, {}, {}]] and the table [{id: ["missingKey"]}]. *)
Definition three_empty_records : list value :=
  [empty_record; empty_record; empty_record].

Definition missing_key_mapping : FieldMapping :=
  [("id", Candidates ["missingKey"])].


(** The table [{id: ["id"], title: undefined, note: [], label: ["label"]}]. *)
Definition sparse_mapping : FieldMapping :=
  [ ("id", Candidates ["id"]); ("title", NotArray); ("note", Candidates []);
    ("label", Candidates ["label"]) ].

(** Options whose only content is [defaults: {title: "untitled"}]. *)
Definition untitled_defaults : TransformOptions :=
  {| transformers := None;
     defaults := Some {[ "title" := VStr "untitled" ]};
     postProcess := None |}.

(** Options with one transformer, for [title], that always returns the
    literal ["fixed"]. *)
Definition fixed_title : TransformOptions :=
  {| transformers := Some {[ "title" := Callable (λ _ _, Returns (VStr "fixed")) ]};
     defaults := None;
     postProcess := None |}.

(** Options with one transformer, for [title], that always returns
    [undefined], over [defaults: {title: "untitled"}]. *)
Definition suppressed_title : TransformOptions :=
  {| transformers := Some {[ "title" := Callable (λ _ _, Returns VUndefined) ]};
     defaults := Some {[ "title" := VStr "untitled" ]};
     postProcess := None |}.

(** The caller's table [{id: ["slug"], title: undefined, extra: ["guid"]}]. *)
Definition slug_override : FieldMapping :=
  [ ("id", Candidates ["slug"]); ("title", NotArray);
    ("extra", Candidates ["guid"]) ].

(** Profile options with the suffix feature switched off. *)
Definition no_ref_options : DataModelTransformOptions :=
  {| generic := no_options; addRefToLink := Some false; refParam := None |}.

(** A caller hook that empties the model. *)
Definition wipe_model : post_process := λ _ _ _, Returns ∅.

(** [{x: 0, y: 99}] *)
Definition record_x_zero : value := VObj {[ "x" := VNum 0; "y" := VNum 99 ]}.

(** [{x: undefined, y: 99}] *)
Definition record_x_undefined : value :=
  VObj {[ "x" := VUndefined; "y" := VNum 99 ]}.


(** [{a: {b: undefined}, c: 7}] *)
Definition record_nested_undefined : value :=
  VObj {[ "a" := VObj {[ "b" := VUndefined ]}; "c" := VNum 7 ]}.

(** [{a: null, c: 7}] *)
Definition record_nested_null : value :=
  VObj {[ "a" := VNull; "c" := VNum 7 ]}.

(** [{link: "http://x.com"}] *)
Definition record_link : value := VObj {[ "link" := VStr "http://x.com" ]}.

(** [{link: ""}] *)
Definition record_empty_link : value := VObj {[ "link" := VStr "" ]}.

(** [{guid: "g-1", slug: "first", title: "T"}] *)
Definition record_legacy : value :=
  VObj {[ "guid" := VStr "g-1"; "slug" := VStr "first"; "title" := VStr "T" ]}.

(** [{"a.b": 1, c: 7}]: a property whose own name has a dot. *)
Definition record_dotted_key : value :=
  VObj {[ "a.b" := VNum 1; "c" := VNum 7 ]}.

(** Options whose only content is [defaults: {note: undefined}]. *)
Definition undefined_note_defaults : TransformOptions :=
  {| transformers := None;
     defaults := Some {[ "note" := VUndefined ]};
     postProcess := None |}.

(** [{x: 1}] *)
Definition record_x_one : value := VObj {[ "x" := VNum 1 ]}.




(** The table [{toString: []}]. *)
Definition toString_mapping : FieldMapping := [("toString", Candidates [])].


(** ** The string helpers: [kebabToCamel], [getReadTime] *)

(** A letter of [[a-z]]. *)
Definition is_lower (a : Ascii.ascii) : bool :=
  let n := Ascii.N_of_ascii a in ((97 <=? n) && (n <=? 122))%N.

(** [letter.toUpperCase()], for a letter of [[a-z]]. *)
Definition upper_of (a : Ascii.ascii) : Ascii.ascii :=
  Ascii.ascii_of_N (Ascii.N_of_ascii a - 32).

(** [str.replace(/-([a-z])/g, (match, letter) => letter.toUpperCase())]:
    the matches are found from left to right and do not overlap.  The
    pattern only involves ASCII characters, so it reads the same on the
    bytes of the text. *)
Fixpoint kebabToCamel (str : string) : string :=
  match str with
  | EmptyString => EmptyString
  | String a rest =>
      if Ascii.eqb a "-"%char then
        match rest with
        | String letter rest' =>
            if is_lower letter then String (upper_of letter) (kebabToCamel rest')
            else String a (kebabToCamel rest)
        | EmptyString => String a EmptyString
        end
      else String a (kebabToCamel rest)
  end.

(** Some place of the string matches [/-([a-z])/]. *)
Fixpoint has_kebab (s : string) : bool :=
  match s with
  | EmptyString => false
  | String a rest =>
      (Ascii.eqb a "-"%char
       && match rest with
          | String letter _ => is_lower letter
          | EmptyString => false
          end)
      || has_kebab rest
  end.

(** The last character of [s] is a [-]. *)
Fixpoint ends_with_dash (s : string) : bool :=
  match s with
  | EmptyString => false
  | String a EmptyString => Ascii.eqb a "-"%char
  | String _ rest => ends_with_dash rest
  end.

(** The text of [getReadTime] is a sequence of UTF-16 code units, which
    is what [trim] and [/\s+/] read. *)
Abbreviation code_units := (list N).

(** The code units of an ASCII text. *)
Fixpoint units_of (s : string) : code_units :=
  match s with
  | EmptyString => []
  | String a rest => Ascii.N_of_ascii a :: units_of rest
  end.

(** [\s], and what [trim] strips: the white space and line terminator
    code points of ECMAScript. *)
Definition is_white_space (c : N) : bool :=
  ((c =? 9) || (c =? 10) || (c =? 11) || (c =? 12) || (c =? 13) || (c =? 32)
   || (c =? 160) || (c =? 5760) || ((8192 <=? c) && (c <=? 8202))
   || (c =? 8232) || (c =? 8233) || (c =? 8239) || (c =? 8287)
   || (c =? 12288) || (c =? 65279))%N.

Fixpoint trim_start (s : code_units) : code_units :=
  match s with
  | [] => []
  | c :: rest => if is_white_space c then trim_start rest else s
  end.

Fixpoint trim_end (s : code_units) : code_units :=
  match s with
  | [] => []
  | c :: rest =>
      match trim_end rest with
      | [] => if is_white_space c then [] else [c]
      | kept => c :: kept
      end
  end.

(** [content.trim()] *)
Definition trim (s : code_units) : code_units := trim_end (trim_start s).

(** [s.split(/\s+/)]: the pieces between the maximal runs of white
    space; a run at either end leaves an empty piece there, and the empty
    text gives one empty piece.  [in_run] tells that the code unit before
    [s] belonged to a run. *)
Fixpoint split_white_space (in_run : bool) (s : code_units) : list code_units :=
  match s with
  | [] => [[]]
  | c :: rest =>
      if is_white_space c then
        if in_run then split_white_space true rest
        else [] :: split_white_space true rest
      else
        match split_white_space false rest with
        | piece :: pieces => (c :: piece) :: pieces
        | [] => [[c]]
        end
  end.

(** [Math.ceil(n / wpm)] for a count [n] and a positive integer [wpm]:
    at the size of a string's length the quotient of the two doubles
    rounds to no integer it has not reached. *)
Definition ceil_div (n : N) (wpm : positive) : N :=
  ((n + N.pos wpm - 1) / N.pos wpm)%N.

(** [getReadTime(content, wpm)], for [content] a string or [null] and
    [wpm] a positive integer. *)
Definition getReadTime (content : option code_units) (wpm : positive) : N :=
  match content with
  | None | Some [] => 0%N
  | Some text =>
      ceil_div (N.of_nat (length (split_white_space false (trim text)))) wpm
  end.

(** The default [wpm = 265]. *)
Definition default_wpm : positive := 265%positive.

(** The number of words of a text: the maximal runs of code units that
    are not white space.  [after_space] tells that a word may start at
    the head of [s]. *)
Fixpoint count_words (after_space : bool) (s : code_units) : nat :=
  match s with
  | [] => 0
  | c :: rest =>
      if is_white_space c then count_words true rest
      else (if after_space then 1 else 0) + count_words false rest
  end.

(** The last code unit of [s] is white space; [before] answers for the
    empty text. *)
Fixpoint ends_in_space (before : bool) (s : code_units) : bool :=
  match s with
  | [] => before
  | c :: rest => ends_in_space (is_white_space c) rest
  end.

(** ** The date helpers that sort and compare

    [dayjs] is not part of the repository: what it computes for a date is
    a parameter of the definitions below, and the dates are valid ones
    (their [valueOf()] is a number). *)

(** [Array.prototype.sort(compare)] keeps the input order of the elements
    that [compare] calls equal and puts the others in the order [compare]
    asks for; with a comparator that is a difference of keys there is one
    such arrangement, and inserting the elements from the right, each
    before the first element it does not come after, computes it. *)
Section ArraySort.
Context {T : Type}.
Variable compare : T → T → Z.

Fixpoint sort_insert (x : T) (sorted : list T) : list T :=
  match sorted with
  | [] => [x]
  | y :: rest =>
      if (compare x y <=? 0)%Z then x :: sorted
      else y :: sort_insert x rest
  end.

Definition array_sort (items : list T) : list T :=
  foldr sort_insert [] items.
End ArraySort.

(** ['desc' | 'asc'] *)
Inductive sort_order : Type := Desc | Asc.

Section DateSort.
(** [dayjs(v).valueOf()] *)
Variable valueOf : value → Z.

(** [[...data].sort((a, b) => dayjs(b.published_at).valueOf()
    - dayjs(a.published_at).valueOf())] *)
Definition sortByPublishedAt (data : list value) : list value :=
  array_sort
    (λ a b, valueOf (get b "published_at") - valueOf (get a "published_at"))%Z
    data.

(** [sortByDate(data, dateProperty, order)] *)
Definition sortByDate (data : list value) (dateProperty : string)
    (order : sort_order) : list value :=
  array_sort
    (λ a b,
       let multiplier := match order with Desc => -1 | Asc => 1 end in
       multiplier * (valueOf (get a dateProperty) - valueOf (get b dateProperty)))%Z
    data.
End DateSort.

(** ['()' | '[]' | '[)' | '(]'] *)
Inductive inclusivity : Type :=
  | BothExclusive | BothInclusive | StartInclusive | EndInclusive.

Section Between.
(** The dates [dayjs] accepts, the instants it makes of them, and its two
    comparisons of instants. *)
Variables (DateInput instant : Type).
Variable dayjs : DateInput → instant.
Variables (dayjs_isAfter dayjs_isBefore : instant → instant → bool).

(** [isBetween(date, startDate, endDate, inclusivity = '[]')] *)
Definition isBetween (date startDate endDate : DateInput)
    (range : inclusivity) : bool :=
  let d := dayjs date in
  dayjs_isAfter d (dayjs startDate) && dayjs_isBefore d (dayjs endDate).
End Between.

(** ** Properties of the helpers *)

Lemma string_eqb_eq (a b : string) : String.eqb a b = bool_decide (a = b).
Proof.
  destruct (String.eqb_spec a b) as [->|Hne].
  - by rewrite bool_decide_eq_true_2.
  - by rewrite bool_decide_eq_false_2.
Qed.

Section EntriesFacts.
Context {A : Type}.
Implicit Types (entries : list (string * A)) (key k : string) (a : A).

Lemma entries_get_None key entries :
  entries_get key entries = None ↔ key ∉ entries.*1.
Proof.
  induction entries as [|[k a] rest IH]; simpl.
  - split; [intros _; apply not_elem_of_nil | done].
  - rewrite string_eqb_eq. case_bool_decide as Hk.
    + subst k. split; [done | intros []; left].
    + rewrite IH, not_elem_of_cons. split; [by intros ? | by intros [_ ?]].
Qed.

Lemma entries_get_Some_elem key a entries :
  entries_get key entries = Some a → (key, a) ∈ entries.
Proof.
  induction entries as [|[k b] rest IH]; simpl; [done|].
  rewrite string_eqb_eq. case_bool_decide as Hk.
  - intros [= ->]. subst k. left.
  - intros H. right. by apply IH.
Qed.

Lemma entries_get_app key entries1 entries2 :
  entries_get key (entries1 ++ entries2) =
    match entries_get key entries1 with
    | Some a => Some a
    | None => entries_get key entries2
    end.
Proof.
  induction entries1 as [|[k b] rest IH]; simpl; [done|].
  by destruct (String.eqb k key).
Qed.

Lemma entries_get_replace k key a entries :
  entries_get k (entries_replace key a entries) =
    if bool_decide (k = key) then (λ _, a) <$> entries_get k entries
    else entries_get k entries.
Proof.
  induction entries as [|[k' b] rest IH]; simpl.
  - by case_bool_decide.
  - rewrite !string_eqb_eq.
    destruct (decide (k' = key)) as [->|Hne].
    + rewrite bool_decide_eq_true_2 by done. simpl.
      rewrite string_eqb_eq, IH.
      repeat case_bool_decide; naive_solver.
    + rewrite (bool_decide_eq_false_2 (k' = key)) by done. simpl.
      rewrite string_eqb_eq, IH.
      repeat case_bool_decide; naive_solver.
Qed.

Lemma entries_get_insert_index k n key a entries :
  entries_get key entries = None →
  entries_get k (entries_insert_index n key a entries) =
    if bool_decide (key = k) then Some a else entries_get k entries.
Proof.
  induction entries as [|[k' b] rest IH]; simpl.
  - intros _. by rewrite string_eqb_eq.
  - destruct (String.eqb_spec k' key) as [->|Hne]; [done|]. intros Hrest.
    specialize (IH Hrest).
    destruct (array_index k') as [n'|]; [destruct (n' <? n)%N|]; simpl;
      rewrite ?string_eqb_eq, ?IH; repeat case_bool_decide;
      simplify_eq; done.
Qed.


(** An assignment leaves every other key as it was. *)
Lemma entries_get_set_ne k key a entries :
  k ≠ key → entries_get k (entries_set key a entries) = entries_get k entries.
Proof.
  intros Hne. unfold entries_set.
  destruct (entries_get key entries) as [b|] eqn:Hget.
  - by rewrite entries_get_replace, bool_decide_eq_false_2.
  - destruct (String.eqb key "__proto__"); [done|].
    destruct (array_index key) as [n|].
    + by rewrite entries_get_insert_index, bool_decide_eq_false_2.
    + rewrite entries_get_app. destruct (entries_get k entries); [done|].
      simpl. by rewrite string_eqb_eq, bool_decide_eq_false_2.
Qed.

End EntriesFacts.

(** *** Outcomes *)

Lemma outcome_bind_returns {A B : Type} (x : outcome A) (f : A → outcome B)
    (b : B) :
  x ≫= f = Returns b ↔ ∃ a, x = Returns a ∧ f a = Returns b.
Proof.
  split.
  - destruct x as [a| |]; simpl; [|done..]. intros Hf. by exists a.
  - by intros (a & -> & Hf).
Qed.

Lemma outcome_fmap_returns {A B : Type} (x : outcome A) (f : A → B) (b : B) :
  f <$> x = Returns b ↔ ∃ a, x = Returns a ∧ f a = b.
Proof.
  split.
  - destruct x as [a| |]; simpl; [|done..]. intros [= Hf]. by exists a.
  - by intros (a & -> & <-).
Qed.

(** A mapping loop that returns has made every call, in order, and each
    one returned the element at its position. *)
Lemma outcome_imap_returns {A B : Type} (f : nat → A → outcome B)
    (start : nat) (l : list A) (out : list B) :
  outcome_imap f start l = Returns out →
  length out = length l ∧
  ∀ i x, l !! i = Some x → ∃ y, f (start + i) x = Returns y ∧ out !! i = Some y.
Proof.
  revert start out. induction l as [|x rest IH]; intros start out; simpl.
  - intros [= <-]. split; [done|]. intros i x Hx. done.
  - intros (y & Hy & (ys & Hys & [= <-])%outcome_bind_returns)
      %outcome_bind_returns.
    destruct (IH _ _ Hys) as [Hlen Hall]. split; [simpl; by rewrite Hlen|].
    intros [|i] x' Hx'; simpl in *.
    + injection Hx' as <-. exists y. by rewrite Nat.add_0_r.
    + destruct (Hall i x' Hx') as (y' & Hy' & Hout). exists y'.
      by rewrite Nat.add_succ_r.
Qed.

(** A mapping loop all of whose calls return, returns. *)
Lemma outcome_imap_total {A B : Type} (f : nat → A → outcome B)
    (start : nat) (l : list A) :
  (∀ i x, l !! i = Some x → ∃ y, f (start + i) x = Returns y) →
  ∃ out, outcome_imap f start l = Returns out.
Proof.
  revert start. induction l as [|x rest IH]; intros start Hall; simpl.
  - by eexists.
  - destruct (Hall 0 x eq_refl) as [y Hy]. rewrite Nat.add_0_r in Hy.
    rewrite Hy. simpl.
    destruct (IH (S start)) as [ys Hys].
    { intros i x' Hx'. destruct (Hall (S i) x' Hx') as [y' Hy'].
      exists y'. by rewrite Nat.add_succ_r in Hy'. }
    rewrite Hys. by eexists.
Qed.

(** *** The loop over the table, read at one field *)

Section FieldLoop.
Variables (options : TransformOptions) (item : value) (index : nat).

#[local] Abbreviation step :=
  (process_field (default ∅ (transformers options)) item index).
#[local] Abbreviation loop :=
  (process_fields (default ∅ (transformers options)) item index).

(** A callback of the loop changes the model under its own field only,
    and what it leaves there depends on what it found there. *)
Lemma process_field_step (m : model) field sourceFields :
  step m (field, sourceFields)
  = (λ after, partial_alter (λ _, after) field m)
    <$> field_step options item index field sourceFields (m !! field).
Proof.
  unfold process_field, field_step. simpl.
  destruct sourceFields as [keys|]; simpl.
  - destruct (apply_transformer _ _ _ _) as [final| |]; simpl; [|done..].
    destruct (is_undefined final); simpl.
    + by rewrite partial_alter_self.
    + unfold assign. destruct (String.eqb field "__proto__"); [|done].
      destruct (m !! field) as [w|] eqn:Hfield; simpl; [done|].
      destruct (is_object final || is_null final); simpl; [done|].
      by rewrite <- Hfield, partial_alter_self.
  - by rewrite partial_alter_self.
Qed.

Lemma process_field_self (m m' : model) field sourceFields :
  step m (field, sourceFields) = Returns m' →
  field_step options item index field sourceFields (m !! field)
  = Returns (m' !! field).
Proof.
  rewrite process_field_step.
  intros (after & Hstep & <-)%outcome_fmap_returns.
  by rewrite lookup_partial_alter_eq.
Qed.

Lemma process_field_other (m m' : model) entry field :
  step m entry = Returns m' → entry.1 ≠ field → m' !! field = m !! field.
Proof.
  destruct entry as [k sourceFields]. rewrite process_field_step.
  intros (after & Hstep & <-)%outcome_fmap_returns Hne.
  by apply lookup_partial_alter_ne.
Qed.

Lemma process_field_total (m : model) field sourceFields after :
  field_step options item index field sourceFields (m !! field) = Returns after →
  ∃ m', step m (field, sourceFields) = Returns m'.
Proof. intros Hstep. rewrite process_field_step, Hstep. by eexists. Qed.

(** A field the table does not name is left alone. *)
Lemma process_fields_unnamed (fieldMapping : FieldMapping) (m m' : model) field :
  loop m fieldMapping = Returns m' →
  field ∉ fieldMapping.*1 →
  m' !! field = m !! field.
Proof.
  revert m. induction fieldMapping as [|entry rest IH]; intros m; simpl.
  - by intros [= <-].
  - intros (m1 & Hstep & Hrest)%outcome_bind_returns
      [Hne Hnot]%not_elem_of_cons.
    rewrite (IH _ Hrest Hnot). by eapply process_field_other.
Qed.

(** A field the table names once is decided by its own entry. *)
Lemma process_fields_named (fieldMapping : FieldMapping) (m m' : model)
    field sourceFields :
  NoDup fieldMapping.*1 →
  loop m fieldMapping = Returns m' →
  (field, sourceFields) ∈ fieldMapping →
  field_step options item index field sourceFields (m !! field)
  = Returns (m' !! field).
Proof.
  revert m. induction fieldMapping as [|entry rest IH]; intros m Hnd; simpl.
  - intros _ Hin. by apply elem_of_nil in Hin.
  - apply NoDup_cons in Hnd as [Hfresh Hnd].
    intros (m1 & Hstep & Hrest)%outcome_bind_returns Hin.
    apply elem_of_cons in Hin as [<-|Hin].
    + simpl in Hfresh. rewrite (process_fields_unnamed _ _ _ _ Hrest Hfresh).
      by apply process_field_self.
    + rewrite <- (IH _ Hnd Hrest Hin). f_equal. symmetry.
      eapply process_field_other; [done|].
      intros Heq. apply Hfresh. rewrite Heq.
      apply list_elem_of_fmap. by exists (field, sourceFields).
Qed.

(** The loop returns when each entry returns on what the model held
    under its field at the start. *)
Lemma process_fields_total (fieldMapping : FieldMapping) (m : model) :
  NoDup fieldMapping.*1 →
  (∀ field sourceFields, (field, sourceFields) ∈ fieldMapping →
     ∃ after, field_step options item index field sourceFields (m !! field)
              = Returns after) →
  ∃ m', loop m fieldMapping = Returns m'.
Proof.
  revert m. induction fieldMapping as [|[k sourceFields] rest IH];
    intros m Hnd Hall; simpl; [by eexists|].
  apply NoDup_cons in Hnd as [Hfresh Hnd].
  destruct (Hall k sourceFields) as [after Hafter]; [left|].
  destruct (process_field_total m k sourceFields after Hafter) as [m1 Hstep].
  rewrite Hstep. simpl. apply IH; [done|].
  intros field sourceFields' Hin.
  destruct (Hall field sourceFields') as [after' Hafter']; [by right|].
  exists after'. rewrite <- Hafter'. f_equal.
  eapply (process_field_other _ _ (k, sourceFields)); [done|].
  simpl. intros ->. apply Hfresh. simpl.
  apply list_elem_of_fmap. by exists (field, sourceFields').
Qed.

(** An entry that returns whatever the model holds never stops the
    loop, also in a table that repeats a field. *)
Lemma process_fields_total_any (fieldMapping : FieldMapping) (m : model) :
  (∀ field sourceFields before, (field, sourceFields) ∈ fieldMapping →
     ∃ after, field_step options item index field sourceFields before
              = Returns after) →
  ∃ m', loop m fieldMapping = Returns m'.
Proof.
  revert m. induction fieldMapping as [|[k sourceFields] rest IH];
    intros m Hall; simpl; [by eexists|].
  destruct (Hall k sourceFields (m !! k)) as [after Hafter]; [left|].
  destruct (process_field_total m k sourceFields after Hafter) as [m1 Hstep].
  rewrite Hstep. simpl. apply IH.
  intros field sourceFields' before Hin. apply Hall. by right.
Qed.

(** What a returned step leaves under a field was there before or comes
    from a candidate array of that field. *)
Lemma field_step_source field sourceFields before after :
  field_step options item index field sourceFields before = Returns after →
  is_Some after →
  is_Some before ∨ ∃ keys, sourceFields = Candidates keys.
Proof.
  destruct sourceFields as [keys|]; [by right; exists keys|].
  simpl. intros [= <-]. by left.
Qed.

Lemma field_step_defined field sourceFields before :
  field_step options item index field sourceFields before
  = Returns (Some VUndefined) →
  before = Some VUndefined.
Proof.
  destruct sourceFields as [keys|]; simpl; [|by intros [= <-]].
  intros (final & _ & Hfinal)%outcome_bind_returns.
  destruct (is_undefined final) eqn:Hdefined; [by injection Hfinal|].
  destruct (String.eqb field "__proto__").
  - destruct before as [w|].
    + injection Hfinal as ->. done.
    + by destruct (is_object final || is_null final).
  - injection Hfinal as ->. done.
Qed.

Lemma process_fields_source (fieldMapping : FieldMapping) (m m' : model) field :
  loop m fieldMapping = Returns m' →
  is_Some (m' !! field) →
  is_Some (m !! field) ∨ ∃ keys, (field, Candidates keys) ∈ fieldMapping.
Proof.
  revert m. induction fieldMapping as [|[k sourceFields] rest IH];
    intros m; simpl.
  - intros [= <-]. by left.
  - intros (m1 & Hstep & Hrest)%outcome_bind_returns Hsome.
    destruct (IH _ Hrest Hsome) as [Hstep1|[keys Hin]].
    + destruct (decide (k = field)) as [->|Hne].
      * apply process_field_self in Hstep.
        destruct (field_step_source _ _ _ _ Hstep Hstep1) as [?|[keys ->]];
          [by left|].
        right. exists keys. left.
      * left. by rewrite <- (process_field_other _ _ _ _ Hstep Hne).
    + right. exists keys. by right.
Qed.

Lemma process_fields_defined (fieldMapping : FieldMapping) (m m' : model) field :
  loop m fieldMapping = Returns m' →
  m' !! field = Some VUndefined →
  m !! field = Some VUndefined.
Proof.
  revert m. induction fieldMapping as [|[k sourceFields] rest IH];
    intros m; simpl.
  - by intros [= <-].
  - intros (m1 & Hstep & Hrest)%outcome_bind_returns Hlookup.
    specialize (IH _ Hrest Hlookup).
    destruct (decide (k = field)) as [->|Hne].
    + apply process_field_self in Hstep. rewrite IH in Hstep.
      by apply field_step_defined in Hstep.
    + by rewrite <- (process_field_other _ _ _ _ Hstep Hne).
Qed.
End FieldLoop.

(** A field without a transformer takes its resolved value, or keeps
    what it had when nothing is resolved. *)
Lemma field_step_untransformed (options : TransformOptions) (item : value)
    (index : nat) (field : string) (keys : list string) (before : option value) :
  untransformed options field →
  field_step options item index field (Candidates keys) before
  = Returns (if is_undefined (resolve_field item index field keys)
             then before
             else Some (resolve_field item index field keys)).
Proof.
  intros (Hplain & Hinherited & Hproto). unfold field_step, apply_transformer.
  unfold transformer_for in Hplain. unfold inherited_function in Hinherited.
  assert (Happly :
    match default ∅ (transformers options) !! field with
    | Some (Callable f) => f (resolve_field item index field keys) item
    | Some NotCallable => Returns (resolve_field item index field keys)
    | None =>
        match object_prototype_member field with
        | Some (VFun name) =>
            call_inherited name (resolve_field item index field keys)
        | _ => Returns (resolve_field item index field keys)
        end
    end = Returns (resolve_field item index field keys)).
  { destruct (default ∅ (transformers options) !! field) as [[f|]|];
      [done|done|].
    by destruct (object_prototype_member field) as [[]|]. }
  rewrite Happly. simpl.
  destruct (is_undefined _); [done|].
  by rewrite string_eqb_eq, bool_decide_eq_false_2.
Qed.

(** *** Traversal and the candidate scan *)

Lemma array_index_length : array_index "length" = None.
Proof. reflexivity. Qed.



(** When every candidate yields [undefined], so does the scan. *)
Lemma resolve_candidates_none item keys :
  Forall (λ key, candidate_yield item key = VUndefined) keys →
  resolve_candidates item keys = VUndefined.
Proof.
  induction 1 as [|key rest Hkey _ IH]; simpl; [done|].
  unfold candidate_yield in Hkey. destruct (includes_dot key).
  - destruct (traverse (split_dot key) item) as [w|]; [|done].
    simpl in Hkey. by rewrite Hkey.
  - by destruct (is_object_like item && has_key item key).
Qed.

(** The scan is "first defined candidate wins" as long as no direct key
    that the record contains holds [undefined]. *)
Lemma resolve_candidates_first_defined item keys :
  Forall (λ key, includes_dot key = false →
                 is_object_like item && has_key item key = true →
                 get item key ≠ VUndefined) keys →
  resolve_candidates item keys = first_defined item keys.
Proof.
  induction 1 as [|key rest Hkey _ IH]; simpl; [done|].
  unfold candidate_yield. destruct (includes_dot key).
  - destruct (traverse (split_dot key) item) as [w|]; simpl; [|done].
    by destruct (is_undefined w).
  - destruct (is_object_like item && has_key item key); [|done].
    specialize (Hkey eq_refl eq_refl). by destruct (get item key).
Qed.

(** The keys of a concrete table are distinct: decided by evaluation. *)
Ltac distinct_keys := apply (bool_decide_unpack _); vm_compute; exact I.

(** *** What an output that was returned is made of *)

Lemma generateModel_returns (items : list value) (fieldMapping : FieldMapping)
    (options : TransformOptions) (out : list model) :
  generateModel (VArr items) fieldMapping options = Returns out →
  length out = length items ∧
  ∀ i item, items !! i = Some item →
    ∃ built m,
      out !! i = Some m ∧
      build_model fieldMapping options item i = Returns built ∧
      match postProcess options with
      | Some hook => hook built item i = Returns m
      | None => m = built
      end.
Proof.
  unfold generateModel. intros [Hlen Hall]%outcome_imap_returns.
  split; [done|]. intros i item Hitem.
  destruct (Hall i item Hitem) as (m & Hm & Hout). simpl in Hm.
  unfold generate_item in Hm.
  apply outcome_bind_returns in Hm as (built & Hbuilt & Hhook).
  exists built, m. split_and!; [done..|].
  destruct (postProcess options); [done|]. by injection Hhook.
Qed.

(** A table whose listed fields have no transformer never stops the
    loop. *)
Lemma build_model_untransformed (fieldMapping : FieldMapping)
    (options : TransformOptions) (item : value) (index : nat) :
  (∀ field keys, (field, Candidates keys) ∈ fieldMapping →
     untransformed options field) →
  ∃ built, build_model fieldMapping options item index = Returns built.
Proof.
  intros Hplain. unfold build_model. apply process_fields_total_any.
  intros field [keys|] before Hin; [|by eexists].
  rewrite field_step_untransformed by eauto. by eexists.
Qed.

(** Without a hook and without a transformer for any listed field, the
    call returns. *)
Lemma generateModel_untransformed (items : list value)
    (fieldMapping : FieldMapping) (options : TransformOptions) :
  postProcess options = None →
  (∀ field keys, (field, Candidates keys) ∈ fieldMapping →
     untransformed options field) →
  ∃ out, generateModel (VArr items) fieldMapping options = Returns out.
Proof.
  intros Hhook Hplain. unfold generateModel. apply outcome_imap_total.
  intros i item _. simpl.
  destruct (build_model_untransformed fieldMapping options item i Hplain)
    as [built Hbuilt].
  exists built. unfold generate_item. by rewrite Hbuilt, Hhook.
Qed.

(** ** The generic mapper *)

(** C1, at the input where the code departs from it.  The claim: the scan
    stops at the first candidate that yields a value other than
    [undefined], and a candidate yielding [undefined] makes it go on to the
    next one.  On [{x: undefined, y: 99}] with candidates [["x"; "y"]] the
    first candidate yields [undefined] and the second yields [99], so
    "first defined candidate wins" gives [99]; the loop breaks at ["x"]
    because the key is present, resolves [undefined], and the field is
    left out of the model. *)
Theorem C1_present_undefined_key_ends_scan :
  candidate_yield record_x_undefined "x" = VUndefined ∧
  candidate_yield record_x_undefined "y" = VNum 99 ∧
  first_defined record_x_undefined ["x"; "y"] = VNum 99 ∧
  resolve_candidates record_x_undefined ["x"; "y"] = VUndefined ∧
  build_model [("v", Candidates ["x"; "y"])] no_options record_x_undefined 0
  = Returns ∅.
Proof.
  split_and!; by vm_compute.
Qed.

(** The spec's own instance of first-candidate-wins: on [{x: 0, y: 99}]
    with candidates [["x"; "y"]] the resolved value is [0]. *)
Example first_candidate_wins_falsy :
  resolve_candidates record_x_zero ["x"; "y"] = VNum 0.
Proof. by vm_compute. Qed.



Example output_follows_input :
  generateModel (VArr [record_legacy; empty_record; record_x_zero])
    [("slug", Candidates ["slug"; "x"])] no_options
  = Returns [ {[ "slug" := VStr "first" ]}; ∅; {[ "slug" := VNum 0 ]} ].
Proof. by vm_compute. Qed.

(** C9: when [records] is absent ([undefined], [null], or anything else
    falsy) or is not an array, the result is the empty array. *)
Theorem C9_no_array_no_models (data : value) (fieldMapping : FieldMapping)
    (options : TransformOptions) :
  truthy data = false ∨ is_array data = false →
  generateModel data fieldMapping options = Returns [].
Proof.
  intros [Hfalsy|Hnot]; destruct data; simpl in *; done.
Qed.

Lemma C9_no_array_no_models_witness :
  (truthy VUndefined = false ∨ is_array VUndefined = false) ∧
  generateModel VUndefined defaultDataModelMapping no_options = Returns [] ∧
  generateModel VNull defaultDataModelMapping no_options = Returns [] ∧
  generateModel (VStr "records") defaultDataModelMapping no_options
  = Returns [] ∧
  generateModel record_link defaultDataModelMapping no_options = Returns [].
Proof.
  split_and!.
  - left. reflexivity.
  - apply C9_no_array_no_models. left. reflexivity.
  - apply C9_no_array_no_models. left. reflexivity.
  - apply C9_no_array_no_models. right. reflexivity.
  - apply C9_no_array_no_models. right. reflexivity.
Defined.




Example dotted_candidate_next :
  resolve_candidates record_nested_undefined ["a.b"; "c"] = VNum 7 ∧
  resolve_candidates record_nested_null ["a.b"; "c"] = VNum 7 ∧
  resolve_candidates record_nested_null ["a.b"] = VUndefined.
Proof. split_and!; by vm_compute. Qed.

(** A key that an object inherits is a key it contains: on [{}] the path
    [__proto__.__proto__] walks to [Object.prototype] and ends on [null],
    a defined value, which ends the scan and becomes the field's value;
    [__proto__.toString] ends on a method, and [constructor.name] stops
    at the function [Object], which is no ['object']. *)
Example inherited_keys_are_walked :
  resolve_candidates empty_record ["__proto__.__proto__"; "c"] = VNull ∧
  resolve_candidates record_nested_null ["__proto__.__proto__"; "c"] = VNull ∧
  generateModel (VArr [record_nested_null])
    [("v", Candidates ["__proto__.__proto__"; "c"])] no_options
  = Returns [ {[ "v" := VNull ]} ] ∧
  resolve_candidates empty_record ["__proto__.toString"; "c"]
  = VFun "Object.prototype.toString" ∧
  resolve_candidates empty_record ["constructor.name"; "c"] = VUndefined ∧
  resolve_candidates empty_record ["constructor"; "c"] = VFun "Object".
Proof. split_and!; by vm_compute. Qed.

(** C4: for the target field ["id"], listed in the table with a candidate
    list, when no candidate yields a defined value the resolved value is
    the record's 0-based position; with no transformer for ["id"] that
    position is the [id] of the model built for the record, and of the
    model at that position of a returned output when no hook runs; the
    output is returned when no listed field has a transformer, registered
    or inherited, or is [__proto__]. *)
Theorem C4_id_falls_back_to_index (items : list value)
    (fieldMapping : FieldMapping) (options : TransformOptions)
    (keys : list string) (i : nat) (item : value) :
  NoDup fieldMapping.*1 →
  ("id", Candidates keys) ∈ fieldMapping →
  items !! i = Some item →
  Forall (λ key, candidate_yield item key = VUndefined) keys →
  resolve_field item i "id" keys = VNum (Z.of_nat i) ∧
  (transformer_for options "id" = None →
   (∀ built, build_model fieldMapping options item i = Returns built →
      built !! "id" = Some (VNum (Z.of_nat i))) ∧
   (postProcess options = None →
    (∀ out, generateModel (VArr items) fieldMapping options = Returns out →
       out !! i ≫= (.!! "id") = Some (VNum (Z.of_nat i))) ∧
    ((∀ field keys', (field, Candidates keys') ∈ fieldMapping →
        untransformed options field) →
     ∃ out, generateModel (VArr items) fieldMapping options = Returns out ∧
            out !! i ≫= (.!! "id") = Some (VNum (Z.of_nat i))))).
Proof.
  intros Hnd Hin Hitem Hnone.
  assert (Hresolved : resolve_field item i "id" keys = VNum (Z.of_nat i)).
  { unfold resolve_field. by rewrite resolve_candidates_none. }
  split; [done|]. intros Hplain.
  assert (Hmodel : ∀ built,
            build_model fieldMapping options item i = Returns built →
            built !! "id" = Some (VNum (Z.of_nat i))).
  { intros built Hbuilt. unfold build_model in Hbuilt.
    pose proof (process_fields_named _ _ _ _ _ _ _ _ Hnd Hbuilt Hin) as Hstep.
    rewrite field_step_untransformed in Hstep by done.
    rewrite Hresolved in Hstep. simpl in Hstep. by injection Hstep. }
  split; [done|]. intros Hhook.
  assert (Houtput : ∀ out,
            generateModel (VArr items) fieldMapping options = Returns out →
            out !! i ≫= (.!! "id") = Some (VNum (Z.of_nat i))).
  { intros out Hout.
    destruct (generateModel_returns _ _ _ _ Hout) as [_ Hall].
    destruct (Hall i item Hitem) as (built & m & Hm & Hbuilt & Hm').
    rewrite Hhook in Hm'. subst m. rewrite Hm. simpl. by apply Hmodel. }
  split; [done|]. intros Hall.
  destruct (generateModel_untransformed items fieldMapping options Hhook Hall)
    as [out Hout].
  exists out. split; [done|]. by apply Houtput.
Qed.

(** The spec's instance: mapping [{id: ["missingKey"]}], records
    [[{}, {}, {}]], no transformer: the ids are [0], [1], [2]. *)
Lemma C4_id_falls_back_to_index_witness :
  NoDup missing_key_mapping.*1 ∧
  ("id", Candidates ["missingKey"]) ∈ missing_key_mapping ∧
  Forall (λ key, candidate_yield empty_record key = VUndefined) ["missingKey"] ∧
  ∃ out,
    generateModel (VArr three_empty_records) missing_key_mapping no_options
    = Returns out ∧
    out !! 0 ≫= (.!! "id") = Some (VNum 0) ∧
    out !! 1 ≫= (.!! "id") = Some (VNum 1) ∧
    out !! 2 ≫= (.!! "id") = Some (VNum 2).
Proof.
  assert (Hnd : NoDup missing_key_mapping.*1) by (apply NoDup_singleton).
  assert (Hin : ("id", Candidates ["missingKey"]) ∈ missing_key_mapping)
    by (apply list_elem_of_singleton; reflexivity).
  assert (Hnone : Forall (λ key, candidate_yield empty_record key = VUndefined)
                    ["missingKey"])
    by (repeat constructor).
  split; [exact Hnd|]. split; [exact Hin|]. split; [exact Hnone|].
  eexists. split; [vm_compute; reflexivity|].
  split; [|split].
  - destruct (C4_id_falls_back_to_index three_empty_records
                missing_key_mapping no_options ["missingKey"] 0 empty_record
                Hnd Hin eq_refl Hnone) as [_ Hid].
    apply (Hid eq_refl); reflexivity.
  - destruct (C4_id_falls_back_to_index three_empty_records
                missing_key_mapping no_options ["missingKey"] 1 empty_record
                Hnd Hin eq_refl Hnone) as [_ Hid].
    apply (Hid eq_refl); reflexivity.
  - destruct (C4_id_falls_back_to_index three_empty_records
                missing_key_mapping no_options ["missingKey"] 2 empty_record
                Hnd Hin eq_refl Hnone) as [_ Hid].
    apply (Hid eq_refl); reflexivity.
Defined.

Example missing_key_ids :
  generateModel (VArr three_empty_records) missing_key_mapping no_options
  = Returns [ {[ "id" := VNum 0 ]}; {[ "id" := VNum 1 ]}; {[ "id" := VNum 2 ]} ].
Proof. by vm_compute. Qed.




Example skipped_title_keeps_default :
  build_model sparse_mapping untitled_defaults record_legacy 0
  = Returns {[ "title" := VStr "untitled"; "id" := VNum 0 ]} ∧
  build_model sparse_mapping no_options record_legacy 0
  = Returns {[ "id" := VNum 0 ]}.
Proof. split; by vm_compute. Qed.

(** An empty candidate list under the name of a function of
    [Object.prototype]: [transformers["toString"]] is the inherited
    method, it is called, and its result is stored. *)
Example inherited_function_is_applied :
  inherited_function "toString" = true ∧
  build_model toString_mapping no_options empty_record 0
  = Returns {[ "toString" := VStr "[object Undefined]" ]}.
Proof. split; by vm_compute. Qed.




(** A transformer returning [undefined] assigns nothing: the default
    stays, and without a default the field is absent. *)
Example undefined_suppresses_field :
  (λ built : model, built !! "title")
    <$> build_model defaultDataModelMapping suppressed_title record_legacy 0
  = Returns (Some (VStr "untitled")) ∧
  (λ built : model, built !! "title")
    <$> build_model defaultDataModelMapping no_options record_legacy 0
  = Returns (Some (VStr "T")).
Proof. split; by vm_compute. Qed.

(** ** The DataModel profile *)

Section EntriesKeys.
Context {A : Type}.
Implicit Types (entries : list (string * A)) (key : string) (a : A).

Lemma entries_replace_keys key a entries :
  (entries_replace key a entries).*1 = entries.*1.
Proof.
  unfold entries_replace. induction entries as [|[k b] rest IH]; [done|].
  cbn [map fmap list_fmap]. f_equal; [|exact IH].
  simpl. by destruct (String.eqb k key).
Qed.

Lemma entries_insert_index_keys n key a entries :
  (entries_insert_index n key a entries).*1 ≡ₚ key :: entries.*1.
Proof.
  induction entries as [|[k b] rest IH]; simpl; [done|].
  destruct (array_index k) as [n'|]; [destruct (n' <? n)%N|]; simpl; try done.
  rewrite IH. apply Permutation_swap.
Qed.

(** Assignment keeps the keys of an object distinct. *)
Lemma entries_set_NoDup key a entries :
  NoDup entries.*1 → NoDup (entries_set key a entries).*1.
Proof.
  intros Hnd. unfold entries_set.
  destruct (entries_get key entries) as [b|] eqn:Hget.
  - by rewrite entries_replace_keys.
  - apply entries_get_None in Hget.
    destruct (String.eqb key "__proto__"); [done|].
    destruct (array_index key) as [n|].
    + rewrite entries_insert_index_keys. by apply NoDup_cons.
    + rewrite fmap_app. simpl. apply NoDup_app. split_and!; [done| |].
      * intros k Hk ->%list_elem_of_singleton. done.
      * apply NoDup_singleton.
Qed.
End EntriesKeys.

Lemma defaultDataModelMapping_NoDup : NoDup defaultDataModelMapping.*1.
Proof. distinct_keys. Qed.



Lemma merge_loop_NoDup (fieldMapping merged : FieldMapping) :
  NoDup merged.*1 →
  NoDup (foldl merge_entry merged fieldMapping).*1.
Proof.
  revert merged.
  induction fieldMapping as [|[k sourceFields] rest IH]; intros merged Hnd;
    [done|].
  simpl. apply IH. unfold merge_entry. simpl.
  destruct sourceFields as [keys|]; [|done].
  by apply entries_set_NoDup.
Qed.



(** A record that carries only the old default key [guid] no longer gets
    its [id] from it once [id] is overridden. *)
Example override_forgets_default_keys :
  (λ out : list model, out !! 0 ≫= (.!! "id"))
    <$> generateDataModel (VArr [record_legacy]) slug_override
          no_data_model_options
  = Returns (Some (VStr "first")) ∧
  (λ out : list model, out !! 0 ≫= (.!! "id"))
    <$> generateDataModel (VArr [record_legacy])
          [("id", Candidates ["missing"])] no_data_model_options
  = Returns (Some (VNum 0)) ∧
  (λ out : list model, out !! 0 ≫= (.!! "id"))
    <$> generateDataModel (VArr [record_legacy]) [] no_data_model_options
  = Returns (Some (VStr "g-1")) ∧
  (λ out : list model, out !! 0 ≫= (.!! "title"))
    <$> generateDataModel (VArr [record_legacy]) slug_override
          no_data_model_options
  = Returns (Some (VStr "T")) ∧
  (λ out : list model, out !! 0 ≫= (.!! "extra"))
    <$> generateDataModel (VArr [record_legacy]) slug_override
          no_data_model_options
  = Returns (Some (VStr "g-1")).
Proof. split_and!; by vm_compute. Qed.

(** What the profile returns at one position: the built-in hook's result
    on the model built there. *)
Lemma generateDataModel_returns (items : list value) (fieldMapping : FieldMapping)
    (options : DataModelTransformOptions) (out : list model)
    (i : nat) (item : value) :
  generateDataModel (VArr items) fieldMapping options = Returns out →
  items !! i = Some item →
  ∃ built m,
    out !! i = Some m ∧
    build_model (mergeMapping fieldMapping) (engineOptions options) item i
    = Returns built ∧
    linkPostProcess (mergeOptions options) built item i = Returns m.
Proof.
  unfold generateDataModel. intros [_ Hall]%generateModel_returns Hitem.
  destruct (Hall i item Hitem) as (built & m & Hm & Hbuilt & Hhook).
  by exists built, m.
Qed.

(** C7, where it fails: for the record [{link: ""}] under the default
    options the model contains [link] and the suffix feature is enabled,
    yet the output's [link] is still [""], without the suffix. *)
Lemma C7_empty_link_left_alone :
  (λ built : model, built !! "link")
    <$> build_model (mergeMapping []) (engineOptions no_data_model_options)
          record_empty_link 0
  = Returns (Some (VStr "")) ∧
  addRefToLink (mergeOptions no_data_model_options) = Some true ∧
  refParam (mergeOptions no_data_model_options) = Some "?ref=bookmarksfor.dev" ∧
  (λ out : list model, out !! 0 ≫= (.!! "link"))
    <$> generateDataModel (VArr [record_empty_link]) [] no_data_model_options
  = Returns (Some (VStr "")).
Proof. split_and!; by vm_compute. Qed.

(** C7, amended: in an output that [generateDataModel] returns, the
    built-in hook has appended the suffix exactly when the built model's
    [link] is truthy (present, and not the empty string, [0], [false] or
    [null]), [addRefToLink] (default [true]) is truthy and [refParam]
    (default ["?ref=bookmarksfor.dev"]) is not empty; the new [link] is
    the text of the old one (the old one itself when it is a string)
    followed by the suffix.  In every other case the model is output as
    built. *)
Theorem C7_truthy_link_is_decorated (items : list value)
    (fieldMapping : FieldMapping) (options : DataModelTransformOptions)
    (out : list model) (i : nat) (item : value) :
  generateDataModel (VArr items) fieldMapping options = Returns out →
  items !! i = Some item →
  ∃ built,
    build_model (mergeMapping fieldMapping) (engineOptions options) item i
    = Returns built ∧
    let link := default VUndefined (built !! "link") in
    let suffix := default "?ref=bookmarksfor.dev" (refParam options) in
    if truthy link && default true (addRefToLink options)
       && negb (String.eqb suffix "")
    then ∃ text,
           to_string link = Returns text ∧
           (∀ s, link = VStr s → text = s) ∧
           out !! i = Some (<["link" := VStr (text +:+ suffix)]> built)
    else out !! i = Some built.
Proof.
  intros Hout Hitem.
  destruct (generateDataModel_returns _ _ _ _ _ _ Hout Hitem)
    as (built & m & Hm & Hbuilt & Hhook).
  exists built. split; [done|]. simpl.
  unfold linkPostProcess, decorates in Hhook. simpl in Hhook.
  destruct (truthy (default VUndefined (built !! "link"))
            && default true (addRefToLink options)
            && negb (String.eqb
                       (default "?ref=bookmarksfor.dev" (refParam options)) "")).
  - apply outcome_bind_returns in Hhook as (text & Htext & [= <-]).
    exists text. split_and!; [done| |done].
    intros s Hs. rewrite Hs in Htext. by injection Htext.
  - injection Hhook as <-. done.
Qed.

(** The spec's instances: [link: "http://x.com"] comes out as
    ["http://x.com?ref=bookmarksfor.dev"] under the default options and
    unchanged with [addRefToLink: false]. *)
Lemma C7_truthy_link_is_decorated_witness :
  ∃ out out',
    generateDataModel (VArr [record_link]) [] no_data_model_options
    = Returns out ∧
    generateDataModel (VArr [record_link]) [] no_ref_options = Returns out' ∧
    out !! 0 ≫= (.!! "link") = Some (VStr "http://x.com?ref=bookmarksfor.dev") ∧
    out' !! 0 ≫= (.!! "link") = Some (VStr "http://x.com").
Proof.
  eexists. eexists.
  split; [vm_compute; reflexivity|]. split; [vm_compute; reflexivity|].
  split.
  - destruct (C7_truthy_link_is_decorated [record_link] []
                no_data_model_options _ 0 record_link eq_refl eq_refl)
      as (built & Hbuilt & Hlink).
    vm_compute in Hbuilt. injection Hbuilt as <-.
    vm_compute. reflexivity.
  - destruct (C7_truthy_link_is_decorated [record_link] []
                no_ref_options _ 0 record_link eq_refl eq_refl)
      as (built & Hbuilt & Hlink).
    vm_compute in Hbuilt. injection Hbuilt as <-.
    vm_compute. reflexivity.
Defined.

(** A link that is no string: the safe integer [42] is spelled in
    decimal, and a link whose text is not pinned leaves the model. *)
Example link_of_other_values :
  (λ out : list model, out !! 0 ≫= (.!! "link"))
    <$> generateDataModel (VArr [VObj {[ "link" := VNum 42 ]}]) []
          no_data_model_options
  = Returns (Some (VStr "42?ref=bookmarksfor.dev")) ∧
  generateDataModel (VArr [VObj {[ "link" := VNum (2 ^ 64) ]}]) []
    no_data_model_options = Beyond ∧
  generateDataModel (VArr [VObj {[ "link" := VObj {[ "toString" := VNum 1 ]} ]}])
    [] no_data_model_options = Throws.
Proof. split_and!; by vm_compute. Qed.

(** C10: the hook handed to the generic mapper is always the built-in
    link hook, whatever the caller put in [options.postProcess]; the
    caller's hook is dropped, so the output does not depend on it. *)
Theorem C10_caller_hook_is_dropped (data : value) (fieldMapping : FieldMapping)
    (options : DataModelTransformOptions) (hook : option post_process) :
  postProcess (engineOptions options)
    = Some (linkPostProcess (mergeOptions options)) ∧
  engineOptions (with_postProcess hook options) = engineOptions options ∧
  generateDataModel data fieldMapping (with_postProcess hook options)
    = generateDataModel data fieldMapping options.
Proof.
  assert (Hsame : engineOptions (with_postProcess hook options)
                  = engineOptions options) by reflexivity.
  split; [reflexivity|]. split; [exact Hsame|].
  unfold generateDataModel. by rewrite Hsame.
Qed.

(** A caller hook that would empty every model leaves no trace. *)
Example wiping_hook_is_dropped :
  generateDataModel (VArr [record_link]) []
    (with_postProcess (Some wipe_model) no_data_model_options)
  = Returns [ {[ "id" := VNum 0;
                 "link" := VStr "http://x.com?ref=bookmarksfor.dev" ]} ].
Proof. by vm_compute. Qed.

(** ** Further properties of the generic mapper *)

(** X1: the mapper invents no field.  A field of a model that was built
    for a record was supplied by the defaults or is a target field that
    the table lists with a candidate array. *)
Theorem model_fields_have_a_source (fieldMapping : FieldMapping)
    (options : TransformOptions) (item : value) (index : nat)
    (built : model) (field : string) :
  build_model fieldMapping options item index = Returns built →
  is_Some (built !! field) →
  is_Some ((default ∅ (defaults options) : model) !! field)
  ∨ ∃ keys, (field, Candidates keys) ∈ fieldMapping.
Proof. apply process_fields_source. Qed.

Lemma model_fields_have_a_source_witness :
  ∃ built,
    build_model defaultDataModelMapping untitled_defaults record_legacy 0
    = Returns built ∧
    is_Some (built !! "id") ∧
    (is_Some ((default ∅ (defaults untitled_defaults) : model) !! "id")
     ∨ ∃ keys, ("id", Candidates keys) ∈ defaultDataModelMapping).
Proof.
  eexists. split; [vm_compute; reflexivity|].
  assert (Hsome : is_Some (({[ "id" := VStr "g-1"; "title" := VStr "T" ]}
                             : model) !! "id")) by (vm_compute; eauto).
  split; [exact Hsome|].
  exact (model_fields_have_a_source defaultDataModelMapping untitled_defaults
           record_legacy 0 _ "id" eq_refl Hsome).
Defined.

(** X2: the mapper never writes [undefined].  A field of a built model
    that holds [undefined] held it in the defaults already; every value
    assigned by the loop over the table is a defined one. *)
Theorem model_holds_no_new_undefined (fieldMapping : FieldMapping)
    (options : TransformOptions) (item : value) (index : nat)
    (built : model) (field : string) :
  build_model fieldMapping options item index = Returns built →
  built !! field = Some VUndefined →
  (default ∅ (defaults options) : model) !! field = Some VUndefined.
Proof. apply process_fields_defined. Qed.

Lemma model_holds_no_new_undefined_witness :
  ∃ built,
    build_model sparse_mapping undefined_note_defaults record_legacy 0
    = Returns built ∧
    built !! "note" = Some VUndefined ∧
    (default ∅ (defaults undefined_note_defaults) : model) !! "note"
    = Some VUndefined.
Proof.
  eexists. split; [vm_compute; reflexivity|].
  assert (Hnote : ({[ "id" := VNum 0; "note" := VUndefined ]} : model)
                    !! "note" = Some VUndefined) by (vm_compute; reflexivity).
  split; [exact Hnote|].
  exact (model_holds_no_new_undefined sparse_mapping undefined_note_defaults
           record_legacy 0 _ "note" eq_refl Hnote).
Defined.

(** Two tables with distinct keys and the same entries build the same
    model, when one of them builds one. *)
Lemma build_model_Permutation (fieldMapping fieldMapping' : FieldMapping)
    (options : TransformOptions) (item : value) (index : nat) (built : model) :
  NoDup fieldMapping.*1 →
  fieldMapping ≡ₚ fieldMapping' →
  build_model fieldMapping options item index = Returns built →
  build_model fieldMapping' options item index = Returns built.
Proof.
  intros Hnd Hperm Hbuilt. unfold build_model in *.
  assert (Hnd' : NoDup fieldMapping'.*1) by (by rewrite <- Hperm).
  destruct (process_fields_total options item index fieldMapping'
              (default ∅ (defaults options)) Hnd') as [built' Hbuilt'].
  { intros field sourceFields Hin. eexists.
    eapply process_fields_named; [exact Hnd|exact Hbuilt|].
    by rewrite Hperm. }
  rewrite Hbuilt'. f_equal. apply map_eq. intros field.
  destruct (decide (field ∈ fieldMapping.*1)) as [Hin|Hout].
  - apply list_elem_of_fmap in Hin as [[k sourceFields] [-> Hin]]. simpl.
    pose proof (process_fields_named _ _ _ _ _ _ _ _ Hnd Hbuilt Hin) as Hstep.
    assert (Hin' : (k, sourceFields) ∈ fieldMapping') by (by rewrite <- Hperm).
    pose proof (process_fields_named _ _ _ _ _ _ _ _ Hnd' Hbuilt' Hin')
      as Hstep'.
    rewrite Hstep in Hstep'. by injection Hstep'.
  - rewrite (process_fields_unnamed _ _ _ _ _ _ _ Hbuilt' ltac:(by rewrite <- Hperm)).
    by rewrite (process_fields_unnamed _ _ _ _ _ _ _ Hbuilt Hout).
Qed.

(** A mapping loop returns the same list under a callback that returns
    whatever the first one returns. *)
Lemma outcome_imap_returns_ext {A B : Type} (f g : nat → A → outcome B)
    (start : nat) (l : list A) (out : list B) :
  (∀ i x y, f i x = Returns y → g i x = Returns y) →
  outcome_imap f start l = Returns out →
  outcome_imap g start l = Returns out.
Proof.
  intros Hext. revert start out.
  induction l as [|x rest IH]; intros start out; simpl; [done|].
  intros (y & Hy & (ys & Hys & [= <-])%outcome_bind_returns)
    %outcome_bind_returns.
  rewrite (Hext _ _ _ Hy). simpl. by rewrite (IH _ _ Hys).
Qed.

(** X3: the order in which the table lists its fields does not matter:
    under two tables with distinct keys and the same entries,
    [generateModel] returns for the same inputs, and returns the same
    output. *)
Theorem table_order_is_irrelevant (fieldMapping fieldMapping' : FieldMapping)
    (options : TransformOptions) (data : value) (out : list model) :
  NoDup fieldMapping.*1 →
  fieldMapping ≡ₚ fieldMapping' →
  generateModel data fieldMapping options = Returns out
  ↔ generateModel data fieldMapping' options = Returns out.
Proof.
  intros Hnd Hperm.
  assert (Hnd' : NoDup fieldMapping'.*1) by (by rewrite <- Hperm).
  assert (Hone : ∀ fm fm' : FieldMapping, NoDup fm.*1 → fm ≡ₚ fm' →
            generateModel data fm options = Returns out →
            generateModel data fm' options = Returns out).
  { intros fm fm' Hfm Hsame. destruct data; try done. simpl.
    apply outcome_imap_returns_ext. intros i item m. unfold generate_item.
    intros (built & Hbuilt & Hhook)%outcome_bind_returns.
    by rewrite (build_model_Permutation fm fm' options item i built). }
  split; [by apply Hone|]. by apply Hone.
Qed.

Lemma table_order_is_irrelevant_witness :
  NoDup sparse_mapping.*1 ∧
  sparse_mapping ≡ₚ reverse sparse_mapping ∧
  ∃ out,
    generateModel (VArr [record_legacy; empty_record]) sparse_mapping
      fixed_title = Returns out ∧
    generateModel (VArr [record_legacy; empty_record])
      (reverse sparse_mapping) fixed_title = Returns out.
Proof.
  assert (Hnd : NoDup sparse_mapping.*1) by distinct_keys.
  assert (Hperm : sparse_mapping ≡ₚ reverse sparse_mapping)
    by (symmetry; apply reverse_Permutation).
  split; [exact Hnd|]. split; [exact Hperm|].
  eexists. split; [vm_compute; reflexivity|].
  apply (table_order_is_irrelevant sparse_mapping (reverse sparse_mapping)
           fixed_title (VArr [record_legacy; empty_record]) _ Hnd Hperm).
  vm_compute. reflexivity.
Defined.

(** X4: the scan reads its result off the record.  What it resolves is
    [undefined] or what one of the listed candidates yields. *)
Theorem resolved_value_is_a_candidate_yield (item : value) (keys : list string) :
  resolve_candidates item keys = VUndefined
  ∨ ∃ key, key ∈ keys ∧ resolve_candidates item keys = candidate_yield item key.
Proof.
  induction keys as [|key rest IH]; simpl; [by left|].
  assert (Hrest : resolve_candidates item rest = VUndefined
                  ∨ ∃ key', key' ∈ key :: rest
                      ∧ resolve_candidates item rest = candidate_yield item key').
  { destruct IH as [?|(key' & ? & ?)]; [by left|].
    right. exists key'. split; [by right|done]. }
  unfold candidate_yield at 1.
  destruct (includes_dot key) eqn:Hdot.
  - destruct (traverse (split_dot key) item) as [w|] eqn:Hwalk; [|done].
    destruct (is_undefined w); [done|].
    right. exists key. split; [left|].
    unfold candidate_yield. by rewrite Hdot, Hwalk.
  - destruct (is_object_like item && has_key item key) eqn:Hhas; [|done].
    right. exists key. split; [left|].
    unfold candidate_yield. by rewrite Hdot, Hhas.
Qed.

(** X5: apart from direct keys that are present and hold [undefined], the
    scan is "first defined candidate wins": when every direct candidate
    that the record contains holds a defined value, the resolved value is
    the yield of the first candidate that yields anything. *)
Theorem scan_is_first_defined (item : value) (keys : list string) :
  Forall (λ key, includes_dot key = false →
                 is_object_like item && has_key item key = true →
                 get item key ≠ VUndefined) keys →
  resolve_candidates item keys = first_defined item keys.
Proof. apply resolve_candidates_first_defined. Qed.

Lemma scan_is_first_defined_witness :
  Forall (λ key, includes_dot key = false →
                 is_object_like record_nested_null
                 && has_key record_nested_null key = true →
                 get record_nested_null key ≠ VUndefined) ["a.b"; "a"; "c"] ∧
  resolve_candidates record_nested_null ["a.b"; "a"; "c"]
  = first_defined record_nested_null ["a.b"; "a"; "c"].
Proof.
  assert (Hkeys : Forall (λ key, includes_dot key = false →
                    is_object_like record_nested_null
                    && has_key record_nested_null key = true →
                    get record_nested_null key ≠ VUndefined) ["a.b"; "a"; "c"]).
  { repeat constructor; intros Hdot Hhas; vm_compute; discriminate. }
  split; [exact Hkeys|].
  exact (scan_is_first_defined record_nested_null ["a.b"; "a"; "c"] Hkeys).
Defined.

Lemma split_dot_nonempty s : split_dot s ≠ [].
Proof.
  destruct s as [|a s]; simpl; [done|].
  destruct (Ascii.eqb a "."); [done|]. by destruct (split_dot s).
Qed.

Lemma split_dot_head_no_dot s : includes_dot (hd "" (split_dot s)) = false.
Proof.
  induction s as [|a s IH]; simpl; [done|].
  destruct (Ascii.eqb a ".") eqn:Hdot; [done|].
  destruct (split_dot s) as [|part parts]; simpl in *; by rewrite Hdot.
Qed.

(** X6: a candidate with a ['.'] is never looked up as a key of its own.
    Its first segment differs from the candidate, and when the record is
    no object or array, or has no key, own or inherited, named by that
    segment, the candidate is skipped, whether or not the record has a
    property named by the whole candidate. *)
Theorem dotted_candidate_is_never_a_direct_key (item : value)
    (key : string) (rest : list string) :
  includes_dot key = true →
  is_object_like item && has_key item (hd "" (split_dot key)) = false →
  hd "" (split_dot key) ≠ key ∧
  resolve_candidates item (key :: rest) = resolve_candidates item rest.
Proof.
  intros Hdot Hmissing. split.
  - intros Heq. pose proof (split_dot_head_no_dot key) as Hhead.
    rewrite Heq in Hhead. congruence.
  - simpl. rewrite Hdot.
    destruct (split_dot key) as [|part parts] eqn:Hsplit.
    + by apply split_dot_nonempty in Hsplit.
    + simpl in *. by rewrite Hmissing.
Qed.

Lemma dotted_candidate_is_never_a_direct_key_witness :
  includes_dot "a.b" = true ∧
  is_object_like record_dotted_key
  && has_key record_dotted_key (hd "" (split_dot "a.b")) = false ∧
  has_key record_dotted_key "a.b" = true ∧
  resolve_candidates record_dotted_key ["a.b"; "c"]
  = resolve_candidates record_dotted_key ["c"].
Proof.
  split; [reflexivity|]. split; [reflexivity|]. split; [reflexivity|].
  apply (dotted_candidate_is_never_a_direct_key record_dotted_key "a.b" ["c"]);
    reflexivity.
Defined.

(** The first segment may be an inherited key: on [{"a.b": 1, c: 7}] the
    candidate ["constructor.b"] is walked through the inherited
    [constructor], a function, where the walk fails; ["__proto__.c"] is
    walked into [Object.prototype], which has no [c]. *)
Example dotted_candidate_inherited_segment :
  has_key record_dotted_key "constructor" = true ∧
  resolve_candidates record_dotted_key ["constructor.b"; "c"] = VNum 7 ∧
  resolve_candidates record_dotted_key ["__proto__.c"; "c"] = VNum 7 ∧
  resolve_candidates record_dotted_key ["__proto__.constructor"]
  = VFun "Object".
Proof. split_and!; by vm_compute. Qed.

(** X20: the defaults are fall-backs.  For a target field that the table
    lists with a candidate array and for which no function is found
    under [transformers[field]], a resolved value replaces what the
    defaults supplied, and the default stays when nothing is resolved. *)
Theorem defaults_are_fallbacks (fieldMapping : FieldMapping)
    (options : TransformOptions) (item : value) (index : nat)
    (field : string) (keys : list string) (built : model) :
  NoDup fieldMapping.*1 →
  (field, Candidates keys) ∈ fieldMapping →
  untransformed options field →
  build_model fieldMapping options item index = Returns built →
  built !! field =
    if is_undefined (resolve_field item index field keys)
    then (default ∅ (defaults options) : model) !! field
    else Some (resolve_field item index field keys).
Proof.
  intros Hnd Hin Hplain Hbuilt. unfold build_model in Hbuilt.
  pose proof (process_fields_named _ _ _ _ _ _ _ _ Hnd Hbuilt Hin) as Hstep.
  rewrite field_step_untransformed in Hstep by done.
  by injection Hstep.
Qed.

Lemma defaults_are_fallbacks_witness :
  NoDup defaultDataModelMapping.*1 ∧
  ("title", Candidates ["title"]) ∈ defaultDataModelMapping ∧
  untransformed untitled_defaults "title" ∧
  ∃ built built',
    build_model defaultDataModelMapping untitled_defaults record_legacy 0
    = Returns built ∧
    build_model defaultDataModelMapping untitled_defaults empty_record 1
    = Returns built' ∧
    built !! "title" = Some (VStr "T") ∧
    built' !! "title" = Some (VStr "untitled").
Proof.
  assert (Hnd : NoDup defaultDataModelMapping.*1) by distinct_keys.
  assert (Hin : ("title", Candidates ["title"]) ∈ defaultDataModelMapping)
    by (right; left).
  assert (Hplain : untransformed untitled_defaults "title")
    by (split_and!; [reflexivity|reflexivity|discriminate]).
  split; [exact Hnd|]. split; [exact Hin|]. split; [exact Hplain|].
  eexists. eexists.
  split; [vm_compute; reflexivity|]. split; [vm_compute; reflexivity|].
  split.
  - exact (defaults_are_fallbacks defaultDataModelMapping untitled_defaults
             record_legacy 0 "title" ["title"] _ Hnd Hin Hplain eq_refl).
  - exact (defaults_are_fallbacks defaultDataModelMapping untitled_defaults
             empty_record 1 "title" ["title"] _ Hnd Hin Hplain eq_refl).
Defined.

(** A default under the name of an inherited function is no fall-back:
    for the field [toString] the function found on [Object.prototype]
    supplies ["[object Undefined]"], whatever the record and the
    defaults hold. *)
Example inherited_function_overrules_default :
  build_model [("toString", Candidates ["x"])]
    {| transformers := None;
       defaults := Some {[ "toString" := VStr "kept" ]};
       postProcess := None |} record_x_one 0
  = Returns {[ "toString" := VStr "[object Undefined]" ]}.
Proof. by vm_compute. Qed.

(** ** Further properties of the DataModel profile *)

Lemma entries_get_set_present {A : Type} (key : string) (a b : A)
    (entries : list (string * A)) :
  entries_get key entries = Some b →
  entries_get key (entries_set key a entries) = Some a.
Proof.
  intros Hget. unfold entries_set. rewrite Hget.
  rewrite entries_get_replace, bool_decide_eq_true_2 by done.
  by rewrite Hget.
Qed.

Lemma merge_loop_keeps_lists (fieldMapping merged : FieldMapping)
    (field : string) (keys : list string) :
  entries_get field merged = Some (Candidates keys) →
  ∃ keys', entries_get field (foldl merge_entry merged fieldMapping)
           = Some (Candidates keys').
Proof.
  revert merged keys.
  induction fieldMapping as [|[k sourceFields] rest IH]; intros merged keys Hget;
    [by exists keys|].
  simpl. unfold merge_entry at 2. simpl.
  destruct sourceFields as [keys'|]; [|by eapply IH].
  destruct (decide (k = field)) as [->|Hne].
  - eapply IH. by eapply entries_get_set_present.
  - eapply IH. by rewrite entries_get_set_ne.
Qed.


Lemma resolve_field_id_defined (item : value) (index : nat) (keys : list string) :
  is_undefined (resolve_field item index "id" keys) = false.
Proof.
  unfold resolve_field.
  by destruct (is_undefined (resolve_candidates item keys)) eqn:Hfound.
Qed.

Lemma linkPostProcess_other_fields (mergedOptions : DataModelTransformOptions)
    (m m' : model) (item : value) (index : nat) (field : string) :
  linkPostProcess mergedOptions m item index = Returns m' →
  field ≠ "link" →
  m' !! field = m !! field.
Proof.
  unfold linkPostProcess. intros Hhook Hne.
  destruct (decorates mergedOptions m).
  - apply outcome_bind_returns in Hhook as (text & _ & [= <-]).
    by apply lookup_insert_ne.
  - by injection Hhook as <-.
Qed.

(** X7: when no transformer is registered for [id], every model of an
    output of [generateDataModel] has an [id] holding a defined value,
    whatever the records, the caller's table and the other options are. *)
Theorem data_model_always_has_id (items : list value)
    (fieldMapping : FieldMapping) (options : DataModelTransformOptions)
    (out : list model) (i : nat) (item : value) :
  generateDataModel (VArr items) fieldMapping options = Returns out →
  items !! i = Some item →
  transformer_for (generic options) "id" = None →
  ∃ m v, out !! i = Some m ∧ m !! "id" = Some v ∧ is_undefined v = false.
Proof.
  intros Hout Hitem Hplain.
  destruct (generateDataModel_returns _ _ _ _ _ _ Hout Hitem)
    as (built & m & Hm & Hbuilt & Hhook).
  assert (Hnd : NoDup (mergeMapping fieldMapping).*1)
    by apply merge_loop_NoDup, defaultDataModelMapping_NoDup.
  destruct (merge_loop_keeps_lists fieldMapping defaultDataModelMapping
              "id" _ eq_refl) as [keys Hid].
  fold (mergeMapping fieldMapping) in Hid.
  exists m, (resolve_field item i "id" keys).
  split; [done|]. split; [|apply resolve_field_id_defined].
  rewrite (linkPostProcess_other_fields _ _ _ _ _ "id" Hhook) by done.
  unfold build_model in Hbuilt.
  pose proof (process_fields_named _ _ _ _ _ _ _ _ Hnd Hbuilt
                (entries_get_Some_elem _ _ _ Hid)) as Hstep.
  rewrite field_step_untransformed in Hstep.
  - rewrite resolve_field_id_defined in Hstep. by injection Hstep.
  - split_and!; [|reflexivity|discriminate].
    unfold transformer_for in *. simpl.
    by destruct (transformers (generic options)).
Qed.

Lemma data_model_always_has_id_witness :
  ∃ out,
    generateDataModel (VArr [empty_record; record_link]) slug_override
      no_data_model_options = Returns out ∧
    ∃ m v, out !! 1 = Some m ∧ m !! "id" = Some v ∧ is_undefined v = false.
Proof.
  eexists. split; [vm_compute; reflexivity|].
  exact (data_model_always_has_id [empty_record; record_link] slug_override
           no_data_model_options _ 1 record_link eq_refl eq_refl eq_refl).
Defined.

(** X8: the built-in hook touches nothing but [link]: every other field
    of an output model is as the generic mapper built it, and the output
    has a [link] exactly when the built model had one. *)
Theorem hook_only_touches_link (items : list value)
    (fieldMapping : FieldMapping) (options : DataModelTransformOptions)
    (out : list model) (i : nat) (item : value) :
  generateDataModel (VArr items) fieldMapping options = Returns out →
  items !! i = Some item →
  ∃ built m,
    build_model (mergeMapping fieldMapping) (engineOptions options) item i
    = Returns built
    ∧ out !! i = Some m
    ∧ (∀ field, field ≠ "link" → m !! field = built !! field)
    ∧ (is_Some (m !! "link") ↔ is_Some (built !! "link")).
Proof.
  intros Hout Hitem.
  destruct (generateDataModel_returns _ _ _ _ _ _ Hout Hitem)
    as (built & m & Hm & Hbuilt & Hhook).
  exists built, m. split_and!; [done|done| |].
  - intros field Hne. by eapply linkPostProcess_other_fields.
  - unfold linkPostProcess, decorates in Hhook.
    destruct (built !! "link") as [link|] eqn:Hlink; simpl in Hhook.
    + destruct (_ && _).
      * apply outcome_bind_returns in Hhook as (text & _ & [= <-]).
        rewrite lookup_insert_eq. by split.
      * injection Hhook as <-. by rewrite Hlink.
    + injection Hhook as <-. by rewrite Hlink.
Qed.

Lemma hook_only_touches_link_witness :
  ∃ out,
    generateDataModel (VArr [record_link]) [] no_data_model_options
    = Returns out ∧
    ∃ built m,
      build_model (mergeMapping []) (engineOptions no_data_model_options)
        record_link 0 = Returns built
      ∧ out !! 0 = Some m
      ∧ (∀ field, field ≠ "link" → m !! field = built !! field)
      ∧ (is_Some (m !! "link") ↔ is_Some (built !! "link")).
Proof.
  eexists. split; [vm_compute; reflexivity|].
  exact (hook_only_touches_link [record_link] [] no_data_model_options _ 0
           record_link eq_refl eq_refl).
Defined.

(** ** [kebabToCamel] *)

(** Induction over a string two characters at a time, as the replacement
    consumes them. *)
Lemma string_pair_ind (P : string → Prop) :
  P EmptyString →
  (∀ a, P (String a EmptyString)) →
  (∀ a b s, P s → P (String b s) → P (String a (String b s))) →
  ∀ s, P s.
Proof.
  intros Hempty Hone Htwo.
  assert (Hboth : ∀ s, P s ∧ ∀ a, P (String a s)).
  { induction s as [|b s [IHs IHbs]]; [by split|].
    split; [apply IHbs|]. intros a. by apply Htwo. }
  intros s. apply Hboth.
Qed.

Lemma upper_of_lower (a : Ascii.ascii) :
  is_lower a = true →
  is_lower (upper_of a) = false ∧ Ascii.eqb (upper_of a) "-" = false.
Proof.
  destruct a as [[] [] [] [] [] [] [] []]; vm_compute; intros; by split.
Qed.

Lemma kebabToCamel_dash_letter (letter : Ascii.ascii) (rest : string) :
  is_lower letter = true →
  kebabToCamel (String "-" (String letter rest))
  = String (upper_of letter) (kebabToCamel rest).
Proof. intros Hlower. simpl. by rewrite Hlower. Qed.

Lemma kebabToCamel_dash_other (b : Ascii.ascii) (rest : string) :
  is_lower b = false →
  kebabToCamel (String "-" (String b rest))
  = String "-" (kebabToCamel (String b rest)).
Proof. intros Hlower. cbn [kebabToCamel Ascii.eqb Bool.eqb]. by rewrite Hlower. Qed.

Lemma kebabToCamel_other (a : Ascii.ascii) (rest : string) :
  Ascii.eqb a "-" = false →
  kebabToCamel (String a rest) = String a (kebabToCamel rest).
Proof. intros Hdash. cbn [kebabToCamel]. by rewrite Hdash. Qed.

(** The result has no match left, and it starts with a letter of [[a-z]]
    only if the text started with that letter. *)
Lemma kebabToCamel_result (s : string) :
  has_kebab (kebabToCamel s) = false ∧
  ∀ a rest, kebabToCamel s = String a rest → is_lower a = true →
            ∃ rest', s = String a rest'.
Proof.
  induction s as [|a|a b s [IHs _] [IHbs Hhead]] using string_pair_ind.
  - split; [done|]. intros a rest Hout. discriminate.
  - assert (Hout : kebabToCamel (String a "") = String a "").
    { simpl. by destruct (Ascii.eqb a "-"). }
    rewrite Hout. split.
    + simpl. by rewrite andb_false_r.
    + intros a' rest [= <- <-] _. by eexists.
  - destruct (Ascii.eqb a "-") eqn:Hdash.
    + apply Ascii.eqb_eq in Hdash as ->.
      destruct (is_lower b) eqn:Hlower.
      * rewrite kebabToCamel_dash_letter by done.
        destruct (upper_of_lower b Hlower) as [Hup Hnodash].
        split.
        -- simpl. by rewrite Hnodash, IHs.
        -- intros a' rest [= <- <-] Ha'. congruence.
      * rewrite kebabToCamel_dash_other by done. split.
        -- cbn [has_kebab]. rewrite IHbs, orb_false_r.
           destruct (kebabToCamel (String b s)) as [|l r] eqn:Hout;
             [done|]. simpl.
           destruct (is_lower l) eqn:Hl; [|done].
           destruct (Hhead l r eq_refl Hl) as [rest' [= -> _]]. congruence.
        -- intros a' rest [= <- <-] Ha'. done.
    + rewrite kebabToCamel_other by done. split.
      * cbn [has_kebab]. by rewrite Hdash, IHbs.
      * intros a' rest [= <- <-] _. by eexists.
Qed.

Lemma kebabToCamel_fixed (s : string) :
  has_kebab s = false → kebabToCamel s = s.
Proof.
  induction s as [|a s IH]; [done|].
  cbn [has_kebab]. intros [Hhere Hrest]%orb_false_iff.
  destruct (Ascii.eqb a "-") eqn:Hdash.
  - apply Ascii.eqb_eq in Hdash as ->. destruct s as [|b s]; [done|].
    simpl in Hhere. rewrite kebabToCamel_dash_other by done.
    by rewrite IH.
  - rewrite kebabToCamel_other by done. by rewrite IH.
Qed.

(** X10: after [kebabToCamel] no [-] followed by a letter of [[a-z]] is
    left in the text, so converting a second time changes nothing. *)
Theorem kebabToCamel_idempotent (s : string) :
  has_kebab (kebabToCamel s) = false ∧
  kebabToCamel (kebabToCamel s) = kebabToCamel s.
Proof.
  pose proof (kebabToCamel_result s) as [Hclean _].
  split; [done|]. by apply kebabToCamel_fixed.
Qed.

Lemma has_kebab_pair (a b : Ascii.ascii) (s : string) :
  has_kebab (String a (String b s))
  = (Ascii.eqb a "-" && is_lower b) || has_kebab (String b s).
Proof. reflexivity. Qed.

Lemma kebabToCamel_length (s : string) :
  (String.length (kebabToCamel s) ≤ String.length s)%nat ∧
  (has_kebab s = true →
   (String.length (kebabToCamel s) < String.length s)%nat).
Proof.
  induction s as [|a|a b s [IHs _] [IHbs IHbs']] using string_pair_ind.
  - by split.
  - assert (Hout : kebabToCamel (String a "") = String a "").
    { simpl. by destruct (Ascii.eqb a "-"). }
    rewrite Hout. split; [done|]. simpl. by rewrite andb_false_r.
  - rewrite has_kebab_pair. destruct (Ascii.eqb a "-") eqn:Hdash.
    + apply Ascii.eqb_eq in Hdash as ->.
      destruct (is_lower b) eqn:Hlower.
      * rewrite kebabToCamel_dash_letter by done.
        cbn [String.length]. split; [lia|intros _; lia].
      * rewrite kebabToCamel_dash_other by done.
        cbn [String.length andb orb] in *. split; [lia|].
        intros Hrest. apply IHbs' in Hrest. lia.
    + rewrite kebabToCamel_other by done.
      cbn [String.length andb orb] in *. split; [lia|].
      intros Hrest. apply IHbs' in Hrest. lia.
Qed.

(** X11: [kebabToCamel] returns the text unchanged exactly when the text
    has no [-] followed by a letter of [[a-z]]; otherwise the result is
    strictly shorter.  It never makes a text longer. *)
Theorem kebabToCamel_unchanged_iff (s : string) :
  (kebabToCamel s = s ↔ has_kebab s = false) ∧
  (has_kebab s = true →
   (String.length (kebabToCamel s) < String.length s)%nat) ∧
  (String.length (kebabToCamel s) ≤ String.length s)%nat.
Proof.
  pose proof (kebabToCamel_length s) as [Hle Hlt].
  split; [|by split]. split.
  - intros Hsame. destruct (has_kebab s) eqn:Hmatch; [|done].
    specialize (Hlt eq_refl). rewrite Hsame in Hlt. lia.
  - apply kebabToCamel_fixed.
Qed.

Lemma ends_with_dash_tail (b : Ascii.ascii) (s : string) :
  ends_with_dash (String b s) = false → ends_with_dash s = false.
Proof. by destruct s. Qed.

(** X12: [kebabToCamel] works piece by piece: when the first piece does
    not end with a [-], converting the concatenation is concatenating
    the conversions. *)
Theorem kebabToCamel_app (s1 s2 : string) :
  ends_with_dash s1 = false →
  kebabToCamel (s1 +:+ s2) = kebabToCamel s1 +:+ kebabToCamel s2.
Proof.
  induction s1 as [|a|a b s IHs IHbs] using string_pair_ind; intros Hend.
  - done.
  - simpl in Hend. change (String a "" +:+ s2) with (String a s2).
    rewrite !kebabToCamel_other by done. reflexivity.
  - assert (Hend' : ends_with_dash (String b s) = false) by done.
    change (String a (String b s) +:+ s2)
      with (String a (String b (s +:+ s2))).
    destruct (Ascii.eqb a "-") eqn:Hdash.
    + apply Ascii.eqb_eq in Hdash as ->.
      destruct (is_lower b) eqn:Hlower.
      * rewrite !kebabToCamel_dash_letter by done.
        rewrite IHs by (by eapply ends_with_dash_tail). reflexivity.
      * rewrite !kebabToCamel_dash_other by done.
        change (String b (s +:+ s2)) with (String b s +:+ s2).
        rewrite (IHbs Hend'). reflexivity.
    + rewrite (kebabToCamel_other a (String b (s +:+ s2)) Hdash).
      rewrite (kebabToCamel_other a (String b s) Hdash).
      change (String b (s +:+ s2)) with (String b s +:+ s2).
      rewrite (IHbs Hend'). reflexivity.
Qed.

Lemma kebabToCamel_app_witness :
  ends_with_dash "data-" = true ∧
  ends_with_dash "data-model" = false ∧
  kebabToCamel ("data-model" +:+ "-field") = "dataModel" +:+ "Field" ∧
  kebabToCamel ("data-" +:+ "model") ≠ kebabToCamel "data-" +:+ kebabToCamel "model".
Proof.
  split; [reflexivity|]. split; [reflexivity|]. split.
  - exact (kebabToCamel_app "data-model" "-field" eq_refl).
  - vm_compute. discriminate.
Defined.

(** ** [getReadTime] *)

Lemma split_white_space_nonempty (in_run : bool) (s : code_units) :
  split_white_space in_run s ≠ [].
Proof.
  revert in_run. induction s as [|c rest IH]; intros in_run; simpl; [done|].
  destruct (is_white_space c).
  - destruct in_run; [apply IH|done].
  - by destruct (split_white_space false rest).
Qed.

(** The pieces of a split against the words of the text: a run of white
    space at either end accounts for one piece more. *)
Lemma split_white_space_length (in_run : bool) (s : code_units) :
  length (split_white_space in_run s) + (if in_run then 1 else 0)
  = count_words in_run s + 1 + (if ends_in_space in_run s then 1 else 0).
Proof.
  revert in_run. induction s as [|c rest IH]; intros in_run; simpl.
  - destruct in_run; lia.
  - destruct (is_white_space c) eqn:Hspace.
    + specialize (IH true). destruct in_run; simpl in *; lia.
    + specialize (IH false).
      pose proof (split_white_space_nonempty false rest) as Hpieces.
      destruct (split_white_space false rest) as [|piece pieces]; [done|].
      destruct in_run; simpl in *; lia.
Qed.

Lemma count_words_trim_start (s : code_units) :
  count_words true (trim_start s) = count_words true s.
Proof.
  induction s as [|c rest IH]; simpl; [done|].
  destruct (is_white_space c) eqn:Hspace; [done|]. simpl. by rewrite Hspace.
Qed.

Lemma count_words_cons (after_space : bool) (c : N) (rest : code_units) :
  count_words after_space (c :: rest)
  = if is_white_space c then count_words true rest
    else (if after_space then 1 else 0) + count_words false rest.
Proof. reflexivity. Qed.

Lemma count_words_trim_end (after_space : bool) (s : code_units) :
  count_words after_space (trim_end s) = count_words after_space s.
Proof.
  revert after_space. induction s as [|c rest IH]; intros after_space;
    [done|].
  cbn [trim_end]. rewrite (count_words_cons after_space c rest).
  destruct (trim_end rest) as [|kept keeps] eqn:Hrest.
  - destruct (is_white_space c) eqn:Hspace.
    + by rewrite <- IH.
    + rewrite (count_words_cons after_space c []), Hspace.
      by rewrite <- IH.
  - rewrite (count_words_cons after_space c (kept :: keeps)).
    destruct (is_white_space c); by rewrite <- IH.
Qed.

Lemma ends_in_space_trim_end (before : bool) (s : code_units) :
  ends_in_space before (trim_end s)
  = match trim_end s with [] => before | _ => false end.
Proof.
  revert before. induction s as [|c rest IH]; intros before; [done|].
  cbn [trim_end].
  destruct (trim_end rest) as [|kept keeps] eqn:Hrest.
  - destruct (is_white_space c) eqn:Hspace; simpl; [done|]. by rewrite Hspace.
  - change (ends_in_space before (c :: kept :: keeps))
      with (ends_in_space (is_white_space c) (kept :: keeps)).
    by rewrite IH.
Qed.

Lemma trim_start_head (s : code_units) :
  match trim_start s with
  | [] => True
  | c :: _ => is_white_space c = false
  end.
Proof.
  induction s as [|c rest IH]; simpl; [done|].
  by destruct (is_white_space c) eqn:Hspace.
Qed.

Lemma trim_end_head (c : N) (rest : code_units) :
  is_white_space c = false → ∃ kept, trim_end (c :: rest) = c :: kept.
Proof.
  intros Hspace. simpl. rewrite Hspace.
  destruct (trim_end rest); by eexists.
Qed.

(** The pieces of the trimmed text are its words; a text without any
    word still gives one (empty) piece. *)
Lemma split_trim_length (s : code_units) :
  length (split_white_space false (trim s)) = Nat.max 1 (count_words true s).
Proof.
  pose proof (split_white_space_length false (trim s)) as Hpieces.
  assert (Hwords : count_words true (trim s) = count_words true s).
  { unfold trim. by rewrite count_words_trim_end, count_words_trim_start. }
  unfold trim in *. rewrite ends_in_space_trim_end in Hpieces.
  pose proof (trim_start_head s) as Hhead.
  destruct (trim_start s) as [|c rest] eqn:Hstart.
  - simpl in *. lia.
  - destruct (trim_end_head c rest Hhead) as [kept Hkept].
    rewrite Hkept in *. cbn [count_words] in *. rewrite Hhead in *. lia.
Qed.

Lemma ceil_div_bounds (n : N) (wpm : positive) :
  (n ≤ ceil_div n wpm * N.pos wpm)%N ∧
  (ceil_div n wpm * N.pos wpm < n + N.pos wpm)%N.
Proof.
  unfold ceil_div.
  pose proof (N.div_mod (n + N.pos wpm - 1) (N.pos wpm)) as Hdiv.
  pose proof (N.mod_lt (n + N.pos wpm - 1) (N.pos wpm)) as Hmod.
  specialize (Hdiv ltac:(lia)). specialize (Hmod ltac:(lia)).
  set (q := ((n + N.pos wpm - 1) / N.pos wpm)%N) in *.
  set (r := ((n + N.pos wpm - 1) mod N.pos wpm)%N) in *.
  rewrite (N.mul_comm q). split; lia.
Qed.

(** X13: for a positive integer [wpm], [getReadTime] is [0] exactly for
    [null] and for the empty string; any other content, even one made of
    white space only, takes at least one minute. *)
Theorem getReadTime_zero_iff (content : option code_units) (wpm : positive) :
  getReadTime content wpm = 0%N ↔ content = None ∨ content = Some [].
Proof.
  split.
  - destruct content as [[|c rest]|]; [by right| |by left].
    unfold getReadTime. intros Hzero.
    pose proof (ceil_div_bounds
      (N.of_nat (length (split_white_space false (trim (c :: rest))))) wpm)
      as [Hlow _].
    rewrite Hzero in Hlow. rewrite split_trim_length in Hlow. lia.
  - by intros [->| ->].
Qed.

(** X14: for a content that is not empty, [getReadTime] is the number of
    words (maximal runs of code units that are not white space; one at
    least) divided by [wpm] and rounded up: the least number of minutes
    that covers the words at [wpm] words a minute. *)
Theorem getReadTime_covers_words (text : code_units) (wpm : positive) :
  text ≠ [] →
  (N.of_nat (Nat.max 1 (count_words true text))
   ≤ getReadTime (Some text) wpm * N.pos wpm)%N ∧
  (getReadTime (Some text) wpm * N.pos wpm
   < N.of_nat (Nat.max 1 (count_words true text)) + N.pos wpm)%N.
Proof.
  intros Hfull. destruct text as [|c rest]; [done|].
  unfold getReadTime. rewrite split_trim_length. apply ceil_div_bounds.
Qed.

Lemma getReadTime_covers_words_witness :
  units_of "  the quick  brown fox " ≠ [] ∧
  count_words true (units_of "  the quick  brown fox ") = 4 ∧
  (4 ≤ getReadTime (Some (units_of "  the quick  brown fox ")) 3 * 3)%N ∧
  (getReadTime (Some (units_of "  the quick  brown fox ")) 3 * 3 < 4 + 3)%N.
Proof.
  split; [discriminate|]. split; [reflexivity|].
  exact (getReadTime_covers_words (units_of "  the quick  brown fox ") 3
           ltac:(discriminate)).
Defined.

(** ** [sortByPublishedAt], [sortByDate] *)

Section ArraySortFacts.
Context {T : Type}.
Variable compare : T → T → Z.

#[local] Abbreviation before := (λ x y, (compare x y ≤ 0)%Z).

Lemma sort_insert_Permutation (x : T) (l : list T) :
  sort_insert compare x l ≡ₚ x :: l.
Proof.
  induction l as [|y rest IH]; simpl; [done|].
  destruct (compare x y <=? 0)%Z; [done|].
  rewrite IH. apply Permutation_swap.
Qed.

Lemma array_sort_Permutation (l : list T) : array_sort compare l ≡ₚ l.
Proof.
  induction l as [|x rest IH]; simpl; [done|].
  by rewrite sort_insert_Permutation, IH.
Qed.

(** Equal elements keep their order: a property that holds of elements
    the comparator does not separate selects the same sub-list before and
    after the sort. *)
Lemma sort_insert_filter (P : T → Prop) `{!∀ x, Decision (P x)}
    (x : T) (l : list T) :
  (∀ u v, P u → P v → (compare u v ≤ 0)%Z) →
  filter P (sort_insert compare x l) = filter P (x :: l).
Proof.
  intros Hclass. induction l as [|y rest IH]; simpl; [done|].
  destruct (compare x y <=? 0)%Z eqn:Hle; [done|].
  apply Z.leb_gt in Hle.
  rewrite (filter_cons P y), IH, !(filter_cons P x), !(filter_cons P y).
  destruct (decide (P x)) as [Hx|Hx]; [|done].
  destruct (decide (P y)) as [Hy|Hy]; [|done].
  specialize (Hclass x y Hx Hy). lia.
Qed.

Lemma array_sort_filter (P : T → Prop) `{!∀ x, Decision (P x)} (l : list T) :
  (∀ u v, P u → P v → (compare u v ≤ 0)%Z) →
  filter P (array_sort compare l) = filter P l.
Proof.
  intros Hclass. induction l as [|x rest IH]; simpl; [done|].
  rewrite sort_insert_filter by done.
  by rewrite !(filter_cons P x), IH.
Qed.

Hypothesis compare_total : ∀ x y, (0 < compare x y → compare y x ≤ 0)%Z.
Hypothesis compare_trans :
  ∀ x y z, (compare x y ≤ 0 → compare y z ≤ 0 → compare x z ≤ 0)%Z.

Lemma sort_insert_StronglySorted (x : T) (l : list T) :
  StronglySorted before l → StronglySorted before (sort_insert compare x l).
Proof.
  induction 1 as [|y rest Hsorted IH Hall]; simpl.
  - by repeat constructor.
  - destruct (compare x y <=? 0)%Z eqn:Hle.
    + apply Z.leb_le in Hle. constructor; [by constructor|].
      constructor; [done|]. eapply Forall_impl; [exact Hall|].
      intros z Hyz. by eapply compare_trans.
    + apply Z.leb_gt in Hle. constructor; [done|].
      rewrite sort_insert_Permutation. constructor; [|done].
      by apply compare_total.
Qed.

Lemma array_sort_StronglySorted (l : list T) :
  StronglySorted before (array_sort compare l).
Proof.
  induction l as [|x rest IH]; simpl; [constructor|].
  by apply sort_insert_StronglySorted.
Qed.

Lemma array_sort_sorted_fixed (l : list T) :
  StronglySorted before l → array_sort compare l = l.
Proof.
  induction 1 as [|x rest Hsorted IH Hall]; simpl; [done|].
  rewrite IH. destruct Hall as [|y rest' Hxy _]; simpl; [done|].
  by rewrite (proj2 (Z.leb_le _ _) Hxy).
Qed.
End ArraySortFacts.

Lemma array_sort_ext {T : Type} (compare compare' : T → T → Z) (l : list T) :
  (∀ x y, compare x y = compare' x y) →
  array_sort compare l = array_sort compare' l.
Proof.
  intros Hsame. induction l as [|x rest IH]; simpl; [done|].
  rewrite IH. generalize (array_sort compare' rest). intros sorted.
  induction sorted as [|y sorted' IHsorted]; simpl; [done|].
  by rewrite Hsame, IHsorted.
Qed.

Lemma StronglySorted_weaken {T : Type} (R R' : T → T → Prop) (l : list T) :
  (∀ x y, R x y → R' x y) → StronglySorted R l → StronglySorted R' l.
Proof.
  intros Himpl. induction 1 as [|x rest _ IH Hall]; constructor; [done|].
  eapply Forall_impl; [exact Hall|]. intros y. apply Himpl.
Qed.

Section DateSortFacts.
Variable valueOf : value → Z.
Variables (dateProperty : string) (order : sort_order).

#[local] Abbreviation date_compare :=
  (λ a b : value,
     let multiplier := match order with Desc => -1 | Asc => 1 end in
     multiplier * (valueOf (get a dateProperty) - valueOf (get b dateProperty)))%Z.

Lemma date_compare_total (x y : value) :
  (0 < date_compare x y → date_compare y x ≤ 0)%Z.
Proof. destruct order; simpl; lia. Qed.

Lemma date_compare_trans (x y z : value) :
  (date_compare x y ≤ 0 → date_compare y z ≤ 0 → date_compare x z ≤ 0)%Z.
Proof. destruct order; simpl; lia. Qed.

(** X15: [sortByDate] returns the items of [data], each as many times as
    [data] has it, in the order asked for: with ['desc'] no item comes
    before one with a later date, with ['asc'] none before one with an
    earlier date. *)
Theorem sortByDate_sorted_permutation (data : list value) :
  sortByDate valueOf data dateProperty order ≡ₚ data ∧
  StronglySorted
    (λ a b,
       match order with
       | Desc => valueOf (get b dateProperty) ≤ valueOf (get a dateProperty)
       | Asc => valueOf (get a dateProperty) ≤ valueOf (get b dateProperty)
       end)%Z
    (sortByDate valueOf data dateProperty order).
Proof.
  split; [apply array_sort_Permutation|].
  pose proof (array_sort_StronglySorted date_compare
                date_compare_total date_compare_trans data) as Hsorted.
  unfold sortByDate. eapply StronglySorted_weaken; [|exact Hsorted].
  intros x y. destruct order; simpl; lia.
Qed.

(** X16: [sortByDate] is stable: the items that share a date come out in
    the order they had in [data]. *)
Theorem sortByDate_stable (data : list value) (date : Z) :
  filter (λ a, valueOf (get a dateProperty) = date)
    (sortByDate valueOf data dateProperty order)
  = filter (λ a, valueOf (get a dateProperty) = date) data.
Proof.
  unfold sortByDate. apply array_sort_filter.
  intros u v Hu Hv. simpl. rewrite Hu, Hv. destruct order; lia.
Qed.

(** X18: [sortByDate] leaves a list that is already in the order asked
    for as it is, so sorting a second time changes nothing. *)
Theorem sortByDate_idempotent (data : list value) :
  sortByDate valueOf (sortByDate valueOf data dateProperty order)
    dateProperty order
  = sortByDate valueOf data dateProperty order.
Proof.
  unfold sortByDate. apply array_sort_sorted_fixed.
  apply array_sort_StronglySorted.
  - apply date_compare_total.
  - apply date_compare_trans.
Qed.
End DateSortFacts.

(** X17: [sortByPublishedAt] is [sortByDate] on ["published_at"] with
    the default order ['desc']. *)
Theorem sortByPublishedAt_is_sortByDate (valueOf : value → Z)
    (data : list value) :
  sortByPublishedAt valueOf data
  = sortByDate valueOf data "published_at" Desc.
Proof.
  unfold sortByPublishedAt, sortByDate. apply array_sort_ext.
  intros a b. simpl. lia.
Qed.

(** ** [isBetween] *)

(** X19: [isBetween] never reads [inclusivity], and with comparisons in
    which no instant is after or before itself it excludes both ends of
    the range, also for the default ['[]']. *)
Theorem isBetween_excludes_both_ends (DateInput instant : Type)
    (dayjs : DateInput → instant)
    (dayjs_isAfter dayjs_isBefore : instant → instant → bool)
    (date startDate endDate : DateInput) (range range' : inclusivity) :
  (∀ t, dayjs_isAfter t t = false) →
  (∀ t, dayjs_isBefore t t = false) →
  isBetween DateInput instant dayjs dayjs_isAfter dayjs_isBefore
    startDate startDate endDate range = false ∧
  isBetween DateInput instant dayjs dayjs_isAfter dayjs_isBefore
    endDate startDate endDate range = false ∧
  isBetween DateInput instant dayjs dayjs_isAfter dayjs_isBefore
    date startDate endDate range
  = isBetween DateInput instant dayjs dayjs_isAfter dayjs_isBefore
      date startDate endDate range'.
Proof.
  intros Hafter Hbefore. unfold isBetween. split_and!.
  - by rewrite Hafter.
  - by rewrite Hbefore, andb_false_r.
  - done.
Qed.

Lemma isBetween_excludes_both_ends_witness :
  (∀ t : Z, (t >? t)%Z = false) ∧
  (∀ t : Z, (t <? t)%Z = false) ∧
  isBetween Z Z id Z.gtb Z.ltb 10%Z 10%Z 20%Z BothInclusive = false ∧
  isBetween Z Z id Z.gtb Z.ltb 20%Z 10%Z 20%Z BothInclusive = false ∧
  isBetween Z Z id Z.gtb Z.ltb 15%Z 10%Z 20%Z BothInclusive = true.
Proof.
  assert (Hafter : ∀ t : Z, (t >? t)%Z = false) by (intros t; lia).
  assert (Hbefore : ∀ t : Z, (t <? t)%Z = false) by (intros t; lia).
  split; [exact Hafter|]. split; [exact Hbefore|].
  split; [|split; [|reflexivity]].
  - exact (proj1 (isBetween_excludes_both_ends Z Z id Z.gtb Z.ltb 15%Z 10%Z
                    20%Z BothInclusive BothExclusive Hafter Hbefore)).
  - exact (proj1 (proj2 (isBetween_excludes_both_ends Z Z id Z.gtb Z.ltb 15%Z
                           10%Z 20%Z BothInclusive BothExclusive
                           Hafter Hbefore))).
Defined.
